(** * fabric.river.service: the River status/control session

    A shallow embedding of [src/fabric/river/service.py] (class [River]) and
    of the completion object of
    [river_control_unstable_v1/zriver_command_callback_v1.py].

    Data.  Python integers are unbounded, so they are [Z]; [&] and [<<] are
    [Z.land] and [Z.shiftl] (Python's [&] on negative integers is the
    two's-complement one, as [Z.land] is).  A [set] is a [gset], a [dict]
    keyed by registry names a [gmap]; [OutputInfo] objects live in a heap,
    because the task-local [state["outputs"]] and [self.outputs] hold the
    same objects.  A [gmap] is not ordered by insertion as a [dict] is; the
    only loop over a dict sends one request per output, and the model does
    not record the order of those.

    Effects.  The service runs on two threads: the worker runs
    [_river_connection_task], the main thread runs the idle closures and
    the command API.  The model is a labelled step function on a [World]
    that holds the service object, the task's [state] dict, the heap, the
    worker's position in the task, the dispatcher tables, the idle queue
    and what has been sent and emitted.  A step is one handler call, one
    return from a blocking display call, one idle closure or one API call;
    steps of the two threads interleave freely but are atomic.  What the
    compositor and the operating system do arrives in the labels.

    Logging is not modelled. *)

From Stdlib Require Import ZArith Lia Ascii String.
From stdpp Require Import base option list sorting gmap strings pretty.

Local Open Scope Z_scope.

(** ** Bitfield codec *)

(** The argument of [_decode_bitfields]: an object without [__iter__] (a
    single integer) or an iterable of integers. *)
Inductive bitfields :=
  | Int (bits : Z)
  | Iter (words : list Z).

(** [range(n)] *)
Definition range (n : nat) : list Z := Z.of_nat <$> seq 0 n.

(** [if not hasattr(bitfields, "__iter__"): bitfields = [bitfields]] *)
Definition as_iterable (bf : bitfields) : list Z :=
  match bf with
  | Int bits => [bits]
  | Iter ws => ws
  end.

(** [if bits & (1 << i): tags.add(i)] *)
Definition add_if_set (bits : Z) (tags : gset Z) (i : Z) : gset Z :=
  if decide (Z.land bits (Z.shiftl 1 i) = 0) then tags else {[ i ]} ∪ tags.

(** [for i in range(32): ...] *)
Definition scan_word (tags : gset Z) (bits : Z) : gset Z :=
  foldl (add_if_set bits) tags (range 32).

(** [sorted(s)] on a set of integers *)
Definition sorted (s : gset Z) : list Z := merge_sort Z.le (elements s).

Definition _decode_bitfields (bf : bitfields) : list Z :=
  let tags : gset Z := ∅ in
  let tags := foldl scan_word tags (as_iterable bf) in
  sorted tags.

(** The bit positions below 32 set in some word, in ascending order: what
    the decoder is specified to return. *)
Definition set_positions (ws : list Z) : list Z :=
  filter (λ i, existsb (λ w, Z.testbit w i) ws = true) (range 32).


(** ** Data model *)

(** Python values that cross the service's interface; [str] is a sequence
    of 8-bit characters here. *)
Inductive pyval :=
  | PyNone
  | PyBool (b : bool)
  | PyInt (z : Z)
  | PyStr (s : string).

Inductive exn := KeyError | ValueError | OSError.

(** The result of a Python call: a returned value or a raised exception. *)
Inductive outcome :=
  | Returns (v : pyval)
  | Raises (e : exn).

(** Connection-scoped handles.  [Bound] is what [registry.bind] returns;
    the two status constructors are the results of
    [get_river_seat_status] and [get_river_output_status]. *)
Inductive proxy :=
  | Bound (name : Z) (iface : string) (version : Z)
  | SeatStatus (seat : proxy)
  | OutputStatus (output : proxy).

(** [@dataclass class OutputInfo] *)
Record OutputInfo := {
  name : Z;
  output : proxy;
  status : option proxy;
  tags_view : list Z;
  tags_focused : list Z;
  tags_urgent : list Z;
}.

(** [OutputInfo(name=name, output=output)]: the defaults of the dataclass *)
Definition new_OutputInfo (n : Z) (o : proxy) : OutputInfo :=
  {| name := n; output := o; status := None;
     tags_view := []; tags_focused := []; tags_urgent := [] |}.

(** [@dataclass(frozen=True) class RiverEvent] *)
Record RiverEvent := {
  ev_name : string;
  ev_data : list pyval;
  ev_output_id : option Z;
}.

(** A caller-supplied continuation; the model only needs its identity. *)
Inductive callable := Callable (id : nat).

(** What the main thread does that an observer can see: signal emissions
    of the service and calls of a caller's continuation. *)
Inductive observed :=
  | Emit (detail : string) (ev : RiverEvent)
      (* self.emit("event::<detail>", event) *)
  | EmitFor (kind : string) (output_id : Z) (tags : list Z)
      (* self.emit(f"event::<kind>::{output_id}", tags) *)
  | Notify (prop : string)
      (* self.notify("<prop>") *)
  | ReadySignal
      (* self.ready_signal.emit() *)
  | Call (f : callable) (succeeded : pyval) (out : pyval) (err : pyval).
      (* callback(succeeded, output, failure_message) *)

(** The closures handed to [idle_add]. *)
Inductive deferred :=
  | DEmit (detail : string) (ev : RiverEvent)
  | DSetReady
  | DEmitViewTags (output_id : Z) (tags : list Z)
  | DEmitFocusedTags (output_id : Z) (tags : list Z)
  | DEmitUrgentTags (output_id : Z) (tags : list Z)
  | DEmitActiveWindow (title : string)
  | DCall (f : callable) (succeeded : pyval) (out : pyval) (err : pyval).

(** Requests sent on the control interface, and the flush of the display. *)
Inductive request :=
  | AddArgument (control : proxy) (arg : string)
  | RunCommandReq (control : proxy) (seat : proxy)
  | Flush.

(** The local [result] dict of one [run_command] call together with the
    [callback] its two handlers close over: one per completion object. *)
Record Invocation := {
  res_stdout : option string;
  res_stderr : option string;
  res_success : option bool;
  inv_callback : option callable;
}.

Definition loc := positive.

(** The attributes of the [River] object. *)
Record River := {
  _ready : bool;
  _active_window_title : string;
  outputs : gmap Z loc;
  river_status_mgr : option proxy;
  river_control : option proxy;
  seat : option proxy;
  seat_status : option proxy;
  _display : bool;                  (* hasattr(self, "_display") *)
}.

(** The [state] dict of [_river_connection_task]. *)
Record TaskState := {
  st_outputs : gmap Z loc;
  st_river_status_mgr : option proxy;
  st_river_control : option proxy;
  st_seat : option proxy;
  st_seat_status : option proxy;
}.

(** Where the worker thread stands in [_river_connection_task]. *)
Inductive Phase :=
  | Starting       (* before display.connect() *)
  | Discovering    (* in the first display.roundtrip() *)
  | Collecting     (* in the second display.roundtrip() *)
  | Dispatching    (* in the while True: display.dispatch(block=True) loop *)
  | Exited.        (* the task has returned *)

Record World := {
  self : River;
  state : TaskState;
  heap : gmap loc OutputInfo;
  phase : Phase;
  seat_handler : bool;         (* the focused_view handler is attached *)
  status_handlers : gset Z;    (* output ids captured by the tag handlers *)
  commands : list Invocation;  (* completion objects, in order of creation *)
  wire : list request;         (* control requests sent, oldest first *)
  spawned : list (list string);(* argv of the external processes run *)
  idle : list deferred;        (* the main loop's idle queue, oldest first *)
  seen : list observed;        (* what the main thread has done, oldest first *)
}.

Definition upd_self (f : River → River) (w : World) : World :=
  {| self := f (self w); state := state w; heap := heap w; phase := phase w;
     seat_handler := seat_handler w; status_handlers := status_handlers w;
     commands := commands w; wire := wire w; spawned := spawned w;
     idle := idle w; seen := seen w |}.

Definition upd_state (f : TaskState → TaskState) (w : World) : World :=
  {| self := self w; state := f (state w); heap := heap w; phase := phase w;
     seat_handler := seat_handler w; status_handlers := status_handlers w;
     commands := commands w; wire := wire w; spawned := spawned w;
     idle := idle w; seen := seen w |}.

Definition upd_heap (f : gmap loc OutputInfo → gmap loc OutputInfo)
    (w : World) : World :=
  {| self := self w; state := state w; heap := f (heap w); phase := phase w;
     seat_handler := seat_handler w; status_handlers := status_handlers w;
     commands := commands w; wire := wire w; spawned := spawned w;
     idle := idle w; seen := seen w |}.

Definition set_phase (p : Phase) (w : World) : World :=
  {| self := self w; state := state w; heap := heap w; phase := p;
     seat_handler := seat_handler w; status_handlers := status_handlers w;
     commands := commands w; wire := wire w; spawned := spawned w;
     idle := idle w; seen := seen w |}.

Definition set_seat_handler (b : bool) (w : World) : World :=
  {| self := self w; state := state w; heap := heap w; phase := phase w;
     seat_handler := b; status_handlers := status_handlers w;
     commands := commands w; wire := wire w; spawned := spawned w;
     idle := idle w; seen := seen w |}.

Definition upd_status_handlers (f : gset Z → gset Z) (w : World) : World :=
  {| self := self w; state := state w; heap := heap w; phase := phase w;
     seat_handler := seat_handler w; status_handlers := f (status_handlers w);
     commands := commands w; wire := wire w; spawned := spawned w;
     idle := idle w; seen := seen w |}.

Definition upd_commands (f : list Invocation → list Invocation)
    (w : World) : World :=
  {| self := self w; state := state w; heap := heap w; phase := phase w;
     seat_handler := seat_handler w; status_handlers := status_handlers w;
     commands := f (commands w); wire := wire w; spawned := spawned w;
     idle := idle w; seen := seen w |}.

(** Sending requests: they are appended to the connection's stream. *)
Definition send (rs : list request) (w : World) : World :=
  {| self := self w; state := state w; heap := heap w; phase := phase w;
     seat_handler := seat_handler w; status_handlers := status_handlers w;
     commands := commands w; wire := wire w ++ rs; spawned := spawned w;
     idle := idle w; seen := seen w |}.

(** Running an external process with the given argv. *)
Definition spawn (argv : list string) (w : World) : World :=
  {| self := self w; state := state w; heap := heap w; phase := phase w;
     seat_handler := seat_handler w; status_handlers := status_handlers w;
     commands := commands w; wire := wire w; spawned := spawned w ++ [argv];
     idle := idle w; seen := seen w |}.

Definition set_idle (q : list deferred) (w : World) : World :=
  {| self := self w; state := state w; heap := heap w; phase := phase w;
     seat_handler := seat_handler w; status_handlers := status_handlers w;
     commands := commands w; wire := wire w; spawned := spawned w;
     idle := q; seen := seen w |}.

(** Modelled from the spec: [fabric.utils.helpers.idle_add], which is not
    among the sources.  The spec gives it schedule-and-return-immediately
    semantics, the call being executed once on the main context and never
    repeated: the closure joins the end of the idle queue. *)
Definition idle_add (d : deferred) (w : World) : World :=
  set_idle (idle w ++ [d]) w.

Definition observe (os : list observed) (w : World) : World :=
  {| self := self w; state := state w; heap := heap w; phase := phase w;
     seat_handler := seat_handler w; status_handlers := status_handlers w;
     commands := commands w; wire := wire w; spawned := spawned w;
     idle := idle w; seen := seen w ++ os |}.

(** ** Registry discovery: the two dispatchers of the registry *)

Definition set_st_outputs (m : gmap Z loc) (st : TaskState) : TaskState :=
  {| st_outputs := m; st_river_status_mgr := st_river_status_mgr st;
     st_river_control := st_river_control st; st_seat := st_seat st;
     st_seat_status := st_seat_status st |}.

Definition set_st_river_status_mgr (p : option proxy) (st : TaskState) :
    TaskState :=
  {| st_outputs := st_outputs st; st_river_status_mgr := p;
     st_river_control := st_river_control st; st_seat := st_seat st;
     st_seat_status := st_seat_status st |}.

Definition set_st_river_control (p : option proxy) (st : TaskState) :
    TaskState :=
  {| st_outputs := st_outputs st;
     st_river_status_mgr := st_river_status_mgr st;
     st_river_control := p; st_seat := st_seat st;
     st_seat_status := st_seat_status st |}.

Definition set_st_seat (p : option proxy) (st : TaskState) : TaskState :=
  {| st_outputs := st_outputs st;
     st_river_status_mgr := st_river_status_mgr st;
     st_river_control := st_river_control st; st_seat := p;
     st_seat_status := st_seat_status st |}.

Definition set_st_seat_status (p : option proxy) (st : TaskState) :
    TaskState :=
  {| st_outputs := st_outputs st;
     st_river_status_mgr := st_river_status_mgr st;
     st_river_control := st_river_control st; st_seat := st_seat st;
     st_seat_status := p |}.

(** The address of the next [OutputInfo] object: one the heap does not
    hold yet. *)
Definition new_loc (w : World) : loc := fresh (dom (heap w)).

Definition handle_global (nm : Z) (iface : string) (version : Z)
    (w : World) : World :=
  if decide (iface = "zriver_status_manager_v1") then
    upd_state (set_st_river_status_mgr (Some (Bound nm iface version))) w
  else if decide (iface = "zriver_control_v1") then
    upd_state (set_st_river_control (Some (Bound nm iface version))) w
  else if decide (iface = "wl_output") then
    let o := Bound nm iface version in
    let l := new_loc w in
    upd_state (λ st, set_st_outputs (<[nm := l]> (st_outputs st)) st)
      (upd_heap (insert l (new_OutputInfo nm o)) w)
  else if decide (iface = "wl_seat") then
    upd_state (set_st_seat (Some (Bound nm iface version))) w
  else w.

Definition output_removed (nm : Z) : RiverEvent :=
  {| ev_name := "output_removed"; ev_data := [PyInt nm];
     ev_output_id := None |}.

Definition handle_global_remove (nm : Z) (w : World) : World :=
  if decide (is_Some (st_outputs (state w) !! nm)) then
    let w :=
      upd_state (λ st, set_st_outputs (delete nm (st_outputs st)) st) w in
    idle_add (DEmit "output_removed" (output_removed nm)) w
  else w.

(** ** Status listeners *)

Definition set_active_window_title (t : string) (r : River) : River :=
  {| _ready := _ready r; _active_window_title := t; outputs := outputs r;
     river_status_mgr := river_status_mgr r; river_control := river_control r;
     seat := seat r; seat_status := seat_status r; _display := _display r |}.

Definition focused_view_handler (title : string) (w : World) : World :=
  idle_add (DEmitActiveWindow title)
    (upd_self (set_active_window_title title) w).

Definition set_status (p : option proxy) (r : OutputInfo) : OutputInfo :=
  {| name := name r; output := output r; status := p;
     tags_view := tags_view r; tags_focused := tags_focused r;
     tags_urgent := tags_urgent r |}.

Definition set_tags_view (t : list Z) (r : OutputInfo) : OutputInfo :=
  {| name := name r; output := output r; status := status r;
     tags_view := t; tags_focused := tags_focused r;
     tags_urgent := tags_urgent r |}.

Definition set_tags_focused (t : list Z) (r : OutputInfo) : OutputInfo :=
  {| name := name r; output := output r; status := status r;
     tags_view := tags_view r; tags_focused := t;
     tags_urgent := tags_urgent r |}.

Definition set_tags_urgent (t : list Z) (r : OutputInfo) : OutputInfo :=
  {| name := name r; output := output r; status := status r;
     tags_view := tags_view r; tags_focused := tags_focused r;
     tags_urgent := t |}.

(** The three handler factories.  [state["outputs"][output_id]] raises
    [KeyError] when the output is no longer tracked; this happens after the
    decoding and before anything is written. *)
Definition make_view_tags_handler (output_id : Z) (tags : bitfields)
    (w : World) : exn + World :=
  let decoded := _decode_bitfields tags in
  match st_outputs (state w) !! output_id with
  | None => inl KeyError
  | Some l =>
      inr (idle_add (DEmitViewTags output_id decoded)
             (upd_heap (alter (set_tags_view decoded) l) w))
  end.

Definition make_focused_tags_handler (output_id : Z) (tags : bitfields)
    (w : World) : exn + World :=
  let decoded := _decode_bitfields tags in
  match st_outputs (state w) !! output_id with
  | None => inl KeyError
  | Some l =>
      inr (idle_add (DEmitFocusedTags output_id decoded)
             (upd_heap (alter (set_tags_focused decoded) l) w))
  end.

Definition make_urgent_tags_handler (output_id : Z) (tags : bitfields)
    (w : World) : exn + World :=
  let decoded := _decode_bitfields tags in
  match st_outputs (state w) !! output_id with
  | None => inl KeyError
  | Some l =>
      inr (idle_add (DEmitUrgentTags output_id decoded)
             (upd_heap (alter (set_tags_urgent decoded) l) w))
  end.

(** One turn of [for name, info in list(state["outputs"].items())]: the
    status object is requested for [info.output], its three handlers are
    attached, and it is stored in [info.status]. *)
Definition bind_output_status (w : World) (item : Z * loc) : World :=
  let '(nm, l) := item in
  let with_status info := set_status (Some (OutputStatus (output info))) info in
  upd_heap (alter with_status l) (upd_status_handlers (union {[ nm ]}) w).

(** The code between the two round trips (lines 147 to 216).  Without a
    status manager the task returns at once. *)
Definition wire_listeners (w : World) : World :=
  match st_river_status_mgr (state w) with
  | None => set_phase Exited w
  | Some _ =>
      let w :=
        match st_seat (state w) with
        | Some s =>
            upd_state (set_st_seat_status (Some (SeatStatus s)))
              (set_seat_handler true w)
        | None => w
        end in
      let items := map_to_list (st_outputs (state w)) in
      set_phase Collecting (foldl bind_output_status w items)
  end.

(** The code after the second round trip up to the main loop (lines 222 to
    231): [self.outputs.update(state["outputs"])] and the attribute
    assignments, then [idle_add(self._set_ready)]. *)
Definition publish (w : World) : World :=
  let st := state w in
  let w :=
    upd_self (λ r,
      {| _ready := _ready r; _active_window_title := _active_window_title r;
         outputs := st_outputs st ∪ outputs r;
         river_status_mgr := st_river_status_mgr st;
         river_control := st_river_control st;
         seat := st_seat st; seat_status := st_seat_status st;
         _display := true |}) w in
  set_phase Dispatching (idle_add DSetReady w).

(** ** Main-thread callbacks *)

Definition set_ready_flag (b : bool) (r : River) : River :=
  {| _ready := b; _active_window_title := _active_window_title r;
     outputs := outputs r; river_status_mgr := river_status_mgr r;
     river_control := river_control r; seat := seat r;
     seat_status := seat_status r; _display := _display r |}.

Definition _set_ready (w : World) : World :=
  observe [ReadySignal] (upd_self (set_ready_flag true) w).

Definition tags_event (kind : string) (tags : list Z) (output_id : Z) :
    RiverEvent :=
  {| ev_name := kind; ev_data := PyInt <$> tags;
     ev_output_id := Some output_id |}.

Definition _emit_view_tags (output_id : Z) (tags : list Z) (w : World) :
    World :=
  observe [Emit "view_tags" (tags_event "view_tags" tags output_id);
           EmitFor "view_tags" output_id tags] w.

Definition _emit_focused_tags (output_id : Z) (tags : list Z) (w : World) :
    World :=
  observe [Emit "focused_tags" (tags_event "focused_tags" tags output_id);
           EmitFor "focused_tags" output_id tags] w.

Definition _emit_urgent_tags (output_id : Z) (tags : list Z) (w : World) :
    World :=
  observe [Emit "urgent_tags" (tags_event "urgent_tags" tags output_id);
           EmitFor "urgent_tags" output_id tags] w.

Definition _emit_active_window (title : string) (w : World) : World :=
  observe [Emit "active_window"
             {| ev_name := "active_window"; ev_data := [PyStr title];
                ev_output_id := None |};
           Notify "active-window"] w.

(** Running one closure of the idle queue on the main thread. *)
Definition run_deferred (d : deferred) (w : World) : World :=
  match d with
  | DEmit detail ev => observe [Emit detail ev] w
  | DSetReady => _set_ready w
  | DEmitViewTags o t => _emit_view_tags o t w
  | DEmitFocusedTags o t => _emit_focused_tags o t w
  | DEmitUrgentTags o t => _emit_urgent_tags o t w
  | DEmitActiveWindow t => _emit_active_window t w
  | DCall f a b c => observe [Call f a b c] w
  end.

(** ** Command session *)

(** An argument of [run_command]'s [*args], and [str(arg)]. *)
Inductive pyarg :=
  | AStr (s : string)
  | AInt (z : Z).

Definition str (a : pyarg) : string :=
  match a with
  | AStr s => s
  | AInt z => pretty z
  end.

(** [str.strip()]: the characters below 256 that Python counts as white
    space. *)
Definition isspace (c : ascii) : bool :=
  let n := nat_of_ascii c in
  ((9 <=? n) && (n <=? 13) || (28 <=? n) && (n <=? 32)
   || (n =? 133) || (n =? 160))%nat.

Fixpoint lstrip (s : string) : string :=
  match s with
  | String c s' => if isspace c then lstrip s' else s
  | EmptyString => EmptyString
  end.

Fixpoint rstrip (s : string) : string :=
  match s with
  | String c s' =>
      match rstrip s' with
      | EmptyString => if isspace c then EmptyString else String c EmptyString
      | r => String c r
      end
  | EmptyString => EmptyString
  end.

Definition strip (s : string) : string := rstrip (lstrip s).

(** What [subprocess.run(cmd, capture_output=True, text=True)] finds: the
    process ran to its end, or could not be started. *)
Inductive process :=
  | Completed (returncode : Z) (stdout stderr : string)
  | NotStarted.

(** The operating system, as far as the fallback is concerned. *)
Definition subprocess := list string → process.

(** [check=True] turns a non-zero return code into [CalledProcessError],
    which the method catches; an [OSError] passes through. *)
Definition _run_command_fallback (run : subprocess) (command : string)
    (args : list pyarg) (w : World) : outcome * World :=
  let cmd := ["riverctl"; command] ++ (str <$> args) in
  let w := spawn cmd w in
  match run cmd with
  | Completed rc out err =>
      if decide (rc = 0) then (Returns (PyStr (strip out)), w)
      else (Returns PyNone, w)
  | NotStarted => (Raises OSError, w)
  end.

(** [result = {"stdout": None, "stderr": None, "success": None}] *)
Definition pending (callback : option callable) : Invocation :=
  {| res_stdout := None; res_stderr := None; res_success := None;
     inv_callback := callback |}.

Definition run_command (run : subprocess) (command : string)
    (args : list pyarg) (callback : option callable) (w : World) :
    outcome * World :=
  match river_control (self w), seat (self w) with
  | Some control, Some s =>
      let w := send [AddArgument control command] w in
      let w := send (AddArgument control <$> (str <$> args)) w in
      let w := send [RunCommandReq control s] w in
      let w := upd_commands (λ cs, cs ++ [pending callback]) w in
      let w := if _display (self w) then send [Flush] w else w in
      (Returns (PyBool true), w)
  | _, _ => _run_command_fallback run command args w
  end.

Definition handle_success (out : string) (inv : Invocation) (w : World) :
    Invocation * World :=
  let inv :=
    {| res_stdout := Some out; res_stderr := res_stderr inv;
       res_success := Some true; inv_callback := inv_callback inv |} in
  match inv_callback inv with
  | Some f => (inv, idle_add (DCall f (PyBool true) (PyStr out) PyNone) w)
  | None => (inv, w)
  end.

Definition handle_failure (failure_message : string) (inv : Invocation)
    (w : World) : Invocation * World :=
  let inv :=
    {| res_stdout := res_stdout inv; res_stderr := Some failure_message;
       res_success := Some false; inv_callback := inv_callback inv |} in
  match inv_callback inv with
  | Some f =>
      (inv, idle_add (DCall f (PyBool false) PyNone (PyStr failure_message)) w)
  | None => (inv, w)
  end.

(** An event on the [k]-th completion object runs its handler, which
    writes to that call's [result]. *)
Definition on_completion (k : nat)
    (h : Invocation → World → Invocation * World) (w : World) : World :=
  match commands w !! k with
  | Some inv =>
      let '(inv', w') := h inv w in
      upd_commands (<[k := inv']>) w'
  | None => w
  end.

Definition toggle_focused_tag (run : subprocess) (tag : Z)
    (callback : option callable) (w : World) : outcome * World :=
  if decide (tag < 0) then (Raises ValueError, w)
  else
    let tag_mask := Z.shiftl 1 tag in
    match run_command run "set-focused-tags" [AStr (pretty tag_mask)]
            callback w with
    | (Returns _, w') => (Returns PyNone, w')
    | (Raises e, w') => (Raises e, w')
    end.

(** ** The session *)

(** [River.__init__]: the attributes, and the worker thread about to run
    [_river_connection_task]. *)
Definition __init__ : World :=
  {| self :=
       {| _ready := false; _active_window_title := ""; outputs := ∅;
          river_status_mgr := None; river_control := None; seat := None;
          seat_status := None; _display := false |};
     state :=
       {| st_outputs := ∅; st_river_status_mgr := None;
          st_river_control := None; st_seat := None;
          st_seat_status := None |};
     heap := ∅; phase := Starting; seat_handler := false;
     status_handlers := ∅; commands := []; wire := []; spawned := [];
     idle := []; seen := [] |}.

(** Events the compositor sends. *)
Inductive wire_event :=
  | Global (nm : Z) (iface : string) (version : Z)
  | GlobalRemove (nm : Z)
  | FocusedView (title : string)
  | ViewTags (output_id : Z) (tags : bitfields)
  | FocusedTags (output_id : Z) (tags : bitfields)
  | UrgentTags (output_id : Z) (tags : bitfields)
  | Success (k : nat) (out : string)
  | Failure (k : nat) (failure_message : string).

(** A handler that raises.  The handlers are called from pywayland's
    dispatcher, which is taken to report the exception and go on; nothing
    is written before the [KeyError], so the world is as it was. *)
Definition guarded (r : exn + World) (w : World) : World :=
  match r with
  | inl _ => w
  | inr w' => w'
  end.

(** The dispatcher tables: an event reaches a handler only if one was
    attached to its object. *)
Definition dispatch (ev : wire_event) (w : World) : World :=
  match ev with
  | Global nm iface version => handle_global nm iface version w
  | GlobalRemove nm => handle_global_remove nm w
  | FocusedView title =>
      if seat_handler w then focused_view_handler title w else w
  | ViewTags o t =>
      if decide (o ∈ status_handlers w)
      then guarded (make_view_tags_handler o t w) w else w
  | FocusedTags o t =>
      if decide (o ∈ status_handlers w)
      then guarded (make_focused_tags_handler o t w) w else w
  | UrgentTags o t =>
      if decide (o ∈ status_handlers w)
      then guarded (make_urgent_tags_handler o t w) w else w
  | Success k out => on_completion k (handle_success out) w
  | Failure k msg => on_completion k (handle_failure msg) w
  end.

(** The atomic steps of the two threads.  The worker connects, has events
    delivered while it sits in a round trip or in the main loop, comes
    back from a round trip, or dies of an exception of the display; the
    main thread runs the oldest idle closure or calls the command API. *)
Inductive label :=
  | Connect
  | Deliver (ev : wire_event)
  | RoundtripDone
  | Fault
  | Idle
  | RunCommand (run : subprocess) (command : string) (args : list pyarg)
      (callback : option callable)
  | ToggleFocusedTag (run : subprocess) (tag : Z)
      (callback : option callable).

Definition step (w : World) (a : label) : World :=
  match a with
  | Connect =>
      match phase w with
      | Starting => set_phase Discovering w
      | _ => w
      end
  | Deliver ev =>
      match phase w with
      | Discovering | Collecting | Dispatching => dispatch ev w
      | _ => w
      end
  | RoundtripDone =>
      match phase w with
      | Discovering => wire_listeners w
      | Collecting => publish w
      | _ => w
      end
  | Fault =>
      match phase w with
      | Exited => w
      | _ => set_phase Exited w
      end
  | Idle =>
      match idle w with
      | d :: q => run_deferred d (set_idle q w)
      | [] => w
      end
  | RunCommand run command args callback =>
      (run_command run command args callback w).2
  | ToggleFocusedTag run tag callback =>
      (toggle_focused_tag run tag callback w).2
  end.

Definition run (w : World) (tr : list label) : World := foldl step w tr.

(** ** Vocabulary of the statements *)

(** The worker steps that end a blocking call: the return of a round trip
    and an exception.  A trace of other steps leaves the worker where it
    is in [_river_connection_task]. *)
Definition stays (a : label) : bool :=
  match a with
  | RoundtripDone | Fault => false
  | _ => true
  end.

(** The registry advertises a global of interface [iface]. *)
Definition is_global (iface : string) (a : label) : bool :=
  match a with
  | Deliver (Global _ i _) => bool_decide (i = iface)
  | _ => false
  end.

Definition advertised (iface : string) (tr : list label) : bool :=
  existsb (is_global iface) tr.

(** The values of [ready] along a trace, the initial one included. *)
Fixpoint ready_trace (w : World) (tr : list label) : list bool :=
  _ready (self w) ::
  match tr with
  | [] => []
  | a :: tr' => ready_trace (step w a) tr'
  end.

(** The number of false-to-true and of true-to-false edges. *)
Fixpoint rises (bs : list bool) : nat :=
  match bs with
  | [] => 0
  | b :: bs' =>
      match bs' with
      | b' :: _ => (if negb b && b' then 1 else 0) + rises bs'
      | [] => 0
      end
  end%nat.

Fixpoint falls (bs : list bool) : nat :=
  match bs with
  | [] => 0
  | b :: bs' =>
      match bs' with
      | b' :: _ => (if b && negb b' then 1 else 0) + falls bs'
      | [] => 0
      end
  end%nat.

Definition is_set_ready (d : deferred) : bool :=
  match d with DSetReady => true | _ => false end.

Definition is_ready_signal (o : observed) : bool :=
  match o with ReadySignal => true | _ => false end.

(** How often [_set_ready] has been scheduled and not run yet, and how
    often it has run. *)
Definition ready_pending (w : World) : nat :=
  length (List.filter is_set_ready (idle w)).

Definition ready_emitted (w : World) : nat :=
  length (List.filter is_ready_signal (seen w)).

(** The main loop runs every closure now in the idle queue. *)
Definition drain (w : World) : World :=
  run w (replicate (length (idle w)) Idle).

(** The whole of a session up to the main loop: connection, the steps
    [tr1] during the first round trip, the steps [tr2] during the second. *)
Definition session (tr1 tr2 : list label) : list label :=
  Connect :: tr1 ++ [RoundtripDone] ++ tr2 ++ [RoundtripDone].

(** Every tracked id names a live record that carries that id. *)
Definition tracked_ok (m : gmap Z loc) (h : gmap loc OutputInfo) : Prop :=
  ∀ n l, m !! n = Some l → ∃ r, h !! l = Some r ∧ name r = n.

Definition heap_ok (w : World) : Prop :=
  tracked_ok (st_outputs (state w)) (heap w)
  ∧ tracked_ok (outputs (self w)) (heap w).

(** The bookkeeping of readiness: [_set_ready] is scheduled at most once,
    by the code that follows the second round trip, and the flag is up
    exactly when it has run. *)
Definition ready_ok (w : World) : Prop :=
  (_ready (self w) = true ↔ ready_emitted w = 1%nat)
  ∧ (phase w = Collecting → is_Some (st_river_status_mgr (state w)))
  ∧ ((ready_pending w + ready_emitted w = 1)%nat →
       _display (self w) = true ∧ is_Some (river_status_mgr (self w)))
  ∧ match phase w with
    | Starting | Discovering | Collecting =>
        (ready_pending w + ready_emitted w = 0)%nat
    | Dispatching => (ready_pending w + ready_emitted w = 1)%nat
    | Exited => (ready_pending w + ready_emitted w ≤ 1)%nat
    end.

(** No status listener has been set up. *)
Definition unwired (w : World) : Prop :=
  seat_handler w = false ∧ status_handlers w = ∅
  ∧ st_seat_status (state w) = None
  ∧ ∀ l r, heap w !! l = Some r → status r = None.

(** Every tracked output has its status object and its handlers. *)
Definition wired (w : World) : Prop :=
  status_handlers w = dom (st_outputs (state w))
  ∧ (seat_handler w = true ↔ is_Some (st_seat (state w)))
  ∧ ∀ n l, st_outputs (state w) !! n = Some l →
      ∃ r, heap w !! l = Some r ∧ status r = Some (OutputStatus (output r)).

(** Nothing of the session has reached the service object: no listener
    is set up, the attributes are those [__init__] wrote, and no
    [_set_ready] is scheduled. *)
Definition untouched (w : World) : Prop :=
  unwired w ∧ self w = self __init__ ∧ ready_pending w = 0%nat.






(** Sample runs.  The compositor offers the status manager, the control
    interface, one output and a seat; the main loop runs the three idle
    closures of the session; then
    [run_command("spawn", "foot", callback=f)] is called, with [f] the
    callback number 0. *)
Definition riverctl_ok : subprocess := λ _, Completed 0 "  ok
" "".


Definition sample_session : list label :=
  session
    [Deliver (Global 1 "zriver_status_manager_v1" 4);
     Deliver (Global 2 "zriver_control_v1" 1);
     Deliver (Global 7 "wl_output" 3);
     Deliver (Global 9 "wl_seat" 5)]
    [Deliver (ViewTags 7 (Iter [5])); Deliver (FocusedTags 7 (Int 1))].

Definition sample_command : list label :=
  sample_session
  ++ [Idle; Idle; Idle;
      RunCommand riverctl_ok "spawn" [AStr "foot"] (Some (Callable 0))].

(** [r'] is [r] under another set of tags: the same output, the same
    handles. *)
Definition same_output (r r' : OutputInfo) : Prop :=
  name r' = name r ∧ output r' = output r ∧ status r' = status r.

(** From [w] to [w'] nothing changed but the record at [l]: every other
    record, both dicts of outputs and the attributes of the service are
    as they were. *)
Definition others_kept (l : loc) (w w' : World) : Prop :=
  (∀ l', l' ≠ l → heap w' !! l' = heap w !! l')
  ∧ state w' = state w ∧ self w' = self w.

(** A compositor without the status manager, and one without the control
    interface. *)
Definition no_status_manager : list label :=
  [Deliver (Global 2 "zriver_control_v1" 1);
   Deliver (Global 7 "wl_output" 3);
   Deliver (Global 9 "wl_seat" 5)].

Definition no_control : list label :=
  [Deliver (Global 1 "zriver_status_manager_v1" 4);
   Deliver (Global 7 "wl_output" 3);
   Deliver (Global 9 "wl_seat" 5)].


(** ** Proof steps used throughout *)

(** Case analysis on a step, with the names of the command API. *)
Ltac by_label a :=
  destruct a as [|ev| | | |os command args callback|os tag callback].

(** The bodies of the handlers an event can reach. *)
Ltac unfold_handlers :=
  unfold handle_global, handle_global_remove, focused_view_handler,
    make_view_tags_handler, make_focused_tags_handler,
    make_urgent_tags_handler, on_completion, handle_success,
    handle_failure.

(** ** Vocabulary of the further properties *)

(** The bitwise OR of the words of a sequence. *)
Definition lor_all (ws : list Z) : Z := foldr Z.lor 0 ws.

(** The worker has not finished the second round trip. *)
Definition early (p : Phase) : bool :=
  match p with
  | Starting | Discovering | Collecting => true
  | Dispatching | Exited => false
  end.

(** The worker is inside a display call that delivers events. *)
Definition listening (p : Phase) : bool :=
  match p with
  | Discovering | Collecting | Dispatching => true
  | Starting | Exited => false
  end.

(** A record as the session builds it: the bound object is the output
    global of the record's name, and the status object, once set, is the
    one requested for that bound object. *)
Definition record_ok (r : OutputInfo) : Prop :=
  (∃ version, output r = Bound (name r) "wl_output" version)
  ∧ (status r = None ∨ status r = Some (OutputStatus (output r))).

Definition heap_records_ok (h : gmap loc OutputInfo) : Prop :=
  ∀ l r, h !! l = Some r → record_ok r.

(** * Properties *)

(** ** The bitfield codec *)

Section codec.
Implicit Types (i bits : Z) (tags : gset Z) (ws : list Z).

Lemma land_bit bits i :
  0 ≤ i → Z.land bits (Z.shiftl 1 i) = 0 ↔ Z.testbit bits i = false.
Proof.
  intros Hi. rewrite Z.shiftl_1_l. split.
  - intros H. apply (f_equal (λ z, Z.testbit z i)) in H.
    rewrite Z.land_spec, Z.pow2_bits_true, Z.bits_0 in H by done.
    by rewrite andb_true_r in H.
  - intros H. apply Z.bits_inj'. intros j Hj.
    rewrite Z.land_spec, Z.bits_0.
    destruct (decide (i = j)) as [->|Hne].
    + by rewrite H.
    + rewrite Z.pow2_bits_false by done. apply andb_false_r.
Qed.

Lemma elem_of_range i (n : nat) : i ∈ range n ↔ 0 ≤ i < Z.of_nat n.
Proof.
  unfold range. rewrite list_elem_of_fmap. split.
  - intros (k & -> & Hk). apply elem_of_seq in Hk. lia.
  - intros Hi. exists (Z.to_nat i). split; [lia|]. apply elem_of_seq. lia.
Qed.

Lemma elem_of_scan tags bits (l : list Z) i :
  Forall (λ j, 0 ≤ j) l →
  i ∈ foldl (add_if_set bits) tags l ↔
  i ∈ tags ∨ (i ∈ l ∧ Z.testbit bits i = true).
Proof.
  intros Hl. revert tags. induction Hl as [|j l Hj _ IH]; intros tags; simpl.
  - rewrite elem_of_nil. tauto.
  - rewrite IH. unfold add_if_set. rewrite elem_of_cons.
    destruct (decide _) as [Hz|Hz].
    + apply land_bit in Hz; [|done]. split; [tauto|].
      intros [?|[[->|?] ?]]; [auto| congruence |auto].
    + assert (Z.testbit bits j = true) as Hb.
      { destruct (Z.testbit bits j) eqn:E; [done|].
        by apply land_bit in E. }
      rewrite elem_of_union, elem_of_singleton. split.
      * intros [[->|?]|[? ?]]; auto.
      * intros [?|[[->|?] ?]]; auto.
Qed.

Lemma elem_of_scan_word tags bits i :
  i ∈ scan_word tags bits ↔
  i ∈ tags ∨ (0 ≤ i ≤ 31 ∧ Z.testbit bits i = true).
Proof.
  unfold scan_word. rewrite elem_of_scan.
  - rewrite elem_of_range. intuition lia.
  - apply Forall_forall. intros j Hj%elem_of_range. lia.
Qed.

Lemma elem_of_scan_words tags ws i :
  i ∈ foldl scan_word tags ws ↔
  i ∈ tags ∨ (0 ≤ i ≤ 31 ∧ ∃ w, w ∈ ws ∧ Z.testbit w i = true).
Proof.
  revert tags. induction ws as [|w ws IH]; intros tags; simpl.
  - split; [auto|]. intros [?|[_ (w & Hw & _)]]; [done|].
    by apply elem_of_nil in Hw.
  - rewrite IH, elem_of_scan_word. setoid_rewrite elem_of_cons. split.
    + intros [[?|[? ?]]|[? (w' & ? & ?)]]; eauto 8.
    + intros [?|[? (w' & [->|?] & ?)]]; eauto 8.
Qed.

Lemma elem_of_sorted (s : gset Z) i : i ∈ sorted s ↔ i ∈ s.
Proof. unfold sorted. by rewrite merge_sort_Permutation, elem_of_elements. Qed.

Lemma NoDup_sorted (s : gset Z) : NoDup (sorted s).
Proof. unfold sorted. rewrite merge_sort_Permutation. apply NoDup_elements. Qed.

Lemma Sorted_sorted (s : gset Z) : Sorted Z.le (sorted s).
Proof. apply (Sorted_merge_sort Z.le). Qed.

Lemma elem_of_set_positions ws i :
  i ∈ set_positions ws ↔
  0 ≤ i ≤ 31 ∧ ∃ w, w ∈ ws ∧ Z.testbit w i = true.
Proof.
  unfold set_positions. rewrite list_elem_of_filter, elem_of_range.
  rewrite existsb_exists. setoid_rewrite <-list_elem_of_In.
  intuition lia.
Qed.

Lemma Sorted_range n : StronglySorted Z.lt (range n).
Proof.
  unfold range. generalize 0%nat.
  induction n as [|n IH]; intros k; simpl; constructor; [apply IH|].
  apply Forall_forall. intros j (m & -> & Hm%elem_of_seq)%list_elem_of_fmap.
  lia.
Qed.

Lemma StronglySorted_filter {A} (R : relation A) (P : A → Prop)
    `{!∀ x, Decision (P x)} (l : list A) :
  StronglySorted R l → StronglySorted R (filter P l).
Proof.
  induction 1 as [|x l _ IH Hx]; [constructor|].
  rewrite filter_cons. destruct (decide (P x)); [|done].
  constructor; [done|].
  rewrite Forall_forall in Hx |- *. intros y [_ Hy]%list_elem_of_filter. auto.
Qed.

Lemma strictly_sorted (l : list Z) :
  Sorted Z.le l → NoDup l → StronglySorted Z.lt l.
Proof.
  intros Hs%(Sorted_StronglySorted _). induction Hs as [|x l _ IH Hx]; intros Hnd.
  - constructor.
  - apply NoDup_cons in Hnd as [Hx' Hnd]. constructor; [auto|].
    rewrite Forall_forall in Hx |- *. intros y Hy.
    specialize (Hx y Hy). assert (x ≠ y) by (intros ->; done). lia.
Qed.

Lemma lt_sorted_le (l : list Z) : StronglySorted Z.lt l → Sorted Z.le l.
Proof.
  intros H. apply StronglySorted_Sorted.
  induction H as [|x l _ IH Hx]; constructor; [done|].
  eapply Forall_impl; [done|]. simpl. lia.
Qed.

Lemma lt_sorted_NoDup (l : list Z) : StronglySorted Z.lt l → NoDup l.
Proof.
  induction 1 as [|x l _ IH Hx]; constructor; [|done].
  intros Hin. rewrite Forall_forall in Hx. specialize (Hx x Hin). lia.
Qed.

Lemma decode_set_positions bf :
  _decode_bitfields bf = set_positions (as_iterable bf).
Proof.
  assert (StronglySorted Z.lt (set_positions (as_iterable bf))) as Hs.
  { apply StronglySorted_filter, Sorted_range. }
  apply (Sorted_unique Z.le).
  - apply Sorted_sorted.
  - by apply lt_sorted_le.
  - apply NoDup_Permutation; [apply NoDup_sorted|by apply lt_sorted_NoDup|].
    intros i. unfold _decode_bitfields.
    rewrite elem_of_sorted, elem_of_scan_words, elem_of_set_positions.
    split; [|auto]. intros [Hin|?]; [|done].
    by apply not_elem_of_empty in Hin.
Qed.

(** C2: [_decode_bitfields] returns, in ascending order and without
    duplicates, exactly the bit positions 0..31 that are set in some
    input word.  A single integer is decoded like the one-element
    sequence holding it, and no position from 32 on is ever returned.
    The three sample values of the specification are checked by
    evaluation.  This holds for all integers, the non-negative ones in
    particular. *)
Theorem decode_bitfields_positions bf :
  _decode_bitfields bf = set_positions (as_iterable bf)
  ∧ StronglySorted Z.lt (_decode_bitfields bf)
  ∧ NoDup (_decode_bitfields bf)
  ∧ (∀ i, i ∈ _decode_bitfields bf ↔
          0 ≤ i ≤ 31 ∧ ∃ w, w ∈ as_iterable bf ∧ Z.testbit w i = true)
  ∧ (∀ i, 32 ≤ i → i ∉ _decode_bitfields bf)
  ∧ (∀ z, _decode_bitfields (Int z) = _decode_bitfields (Iter [z]))
  ∧ _decode_bitfields (Int 0) = []
  ∧ _decode_bitfields (Int 11) = [0; 1; 3]
  ∧ _decode_bitfields (Iter [1; 2]) = [0; 1].
Proof.
  assert (∀ i, i ∈ _decode_bitfields bf ↔
    0 ≤ i ≤ 31 ∧ ∃ w, w ∈ as_iterable bf ∧ Z.testbit w i = true) as Hin.
  { intros i. rewrite decode_set_positions. apply elem_of_set_positions. }
  split_and!.
  - apply decode_set_positions.
  - apply strictly_sorted; [apply Sorted_sorted|apply NoDup_sorted].
  - apply NoDup_sorted.
  - exact Hin.
  - intros i Hi [Hlt _]%Hin. lia.
  - intros z. unfold _decode_bitfields.
    change (as_iterable (Int z)) with (as_iterable (Iter [z])). reflexivity.
  - vm_compute. reflexivity.
  - vm_compute. reflexivity.
  - vm_compute. reflexivity.
Qed.

(** C10: [_decode_bitfields] is total on integers of either sign and of
    any size: it always returns a list, whose elements lie in 0..31, which
    has at most 32 elements and is strictly increasing.  A word with all
    bits set (-1) gives all 32 positions; bits from position 32 on are
    dropped. *)
Theorem decode_bitfields_total bf :
  ∃ r, _decode_bitfields bf = r
    ∧ Forall (λ i, 0 ≤ i ≤ 31) r
    ∧ (length r ≤ 32)%nat
    ∧ StronglySorted Z.lt r
    ∧ _decode_bitfields (Int (-1)) = range 32
    ∧ _decode_bitfields (Iter [- 2 ^ 31; 2 ^ 32 + 2 ^ 40 + 4]) = [2; 31].
Proof.
  exists (_decode_bitfields bf). split_and!.
  - reflexivity.
  - rewrite decode_set_positions. apply Forall_forall.
    intros i [Hi _]%elem_of_set_positions. done.
  - rewrite decode_set_positions. unfold set_positions.
    etrans; [apply length_filter|]. unfold range.
    by rewrite length_fmap, length_seq.
  - apply strictly_sorted; [apply Sorted_sorted|apply NoDup_sorted].
  - vm_compute. reflexivity.
  - vm_compute. reflexivity.
Qed.
End codec.

(** ** Registry discovery and the output records *)

Section registry.
Implicit Types (w : World) (n version : Z) (l : loc).

Lemma new_loc_fresh w : heap w !! new_loc w = None.
Proof.
  unfold new_loc. apply (not_elem_of_dom (D := gset loc)).
  apply (is_fresh (dom (heap w))).
Qed.

Lemma handle_global_output w n version :
  handle_global n "wl_output" version w =
  upd_state (λ st, set_st_outputs (<[n := new_loc w]> (st_outputs st)) st)
    (upd_heap (insert (new_loc w)
                 (new_OutputInfo n (Bound n "wl_output" version))) w).
Proof. reflexivity. Qed.

Lemma handle_global_remove_tracked w n l :
  st_outputs (state w) !! n = Some l →
  handle_global_remove n w =
  idle_add (DEmit "output_removed" (output_removed n))
    (upd_state (λ st, set_st_outputs (delete n (st_outputs st)) st) w).
Proof.
  intros H. unfold handle_global_remove.
  destruct (decide _) as [|[]]; [done|]. by rewrite H.
Qed.


End registry.

(** ** What each operation leaves alone *)

Section frames.
Implicit Types (w : World) (a : label) (ev : wire_event).

Lemma fallback_frame run command args w :
  (_run_command_fallback run command args w).2
  = spawn (["riverctl"; command] ++ (str <$> args)) w.
Proof.
  unfold _run_command_fallback.
  destruct (run _) as [rc ? ?|]; [destruct (decide (rc = 0))|]; reflexivity.
Qed.

Lemma run_command_fallback run command args callback w :
  river_control (self w) = None ∨ seat (self w) = None →
  run_command run command args callback w
  = _run_command_fallback run command args w.
Proof.
  intros H. unfold run_command.
  destruct (river_control (self w)), (seat (self w)); try done.
  by destruct H.
Qed.

Lemma run_command_frame run command args callback w :
  let w' := (run_command run command args callback w).2 in
  self w' = self w ∧ state w' = state w ∧ heap w' = heap w
  ∧ phase w' = phase w ∧ seat_handler w' = seat_handler w
  ∧ status_handlers w' = status_handlers w
  ∧ idle w' = idle w ∧ seen w' = seen w.
Proof.
  unfold run_command.
  destruct (river_control (self w)), (seat (self w));
    rewrite ?fallback_frame; simpl; try done.
  destruct (_display (self w)); done.
Qed.

Lemma toggle_focused_tag_frame run tag callback w :
  let w' := (toggle_focused_tag run tag callback w).2 in
  self w' = self w ∧ state w' = state w ∧ heap w' = heap w
  ∧ phase w' = phase w ∧ seat_handler w' = seat_handler w
  ∧ status_handlers w' = status_handlers w
  ∧ idle w' = idle w ∧ seen w' = seen w.
Proof.
  unfold toggle_focused_tag. destruct (decide (tag < 0)); [done|].
  pose proof (run_command_frame run "set-focused-tags"
    [AStr (pretty (Z.shiftl 1 tag))] callback w) as H.
  destruct (run_command _ _ _ _ _) as [[]]; exact H.
Qed.

Lemma run_deferred_frame d w :
  let w' := run_deferred d w in
  state w' = state w ∧ heap w' = heap w ∧ phase w' = phase w
  ∧ seat_handler w' = seat_handler w
  ∧ status_handlers w' = status_handlers w
  ∧ commands w' = commands w ∧ wire w' = wire w
  ∧ spawned w' = spawned w ∧ idle w' = idle w
  ∧ outputs (self w') = outputs (self w)
  ∧ river_control (self w') = river_control (self w)
  ∧ seat (self w') = seat (self w)
  ∧ river_status_mgr (self w') = river_status_mgr (self w)
  ∧ _display (self w') = _display (self w).
Proof. destruct d; done. Qed.

Lemma foldl_bind_output_status_frame (items : list (Z * loc)) w :
  let w' := foldl bind_output_status w items in
  self w' = self w ∧ state w' = state w ∧ phase w' = phase w
  ∧ seat_handler w' = seat_handler w ∧ commands w' = commands w
  ∧ wire w' = wire w ∧ spawned w' = spawned w
  ∧ idle w' = idle w ∧ seen w' = seen w
  ∧ status_handlers w' = list_to_set items.*1 ∪ status_handlers w.
Proof.
  cbv zeta. revert w. induction items as [|[n l] items IH]; intros w.
  - simpl. split_and!; try done. by rewrite (left_id_L ∅ (∪)).
  - change (foldl bind_output_status w ((n, l) :: items))
      with (foldl bind_output_status (bind_output_status w (n, l)) items).
    destruct (IH (bind_output_status w (n, l)))
      as (-> & -> & -> & -> & -> & -> & -> & -> & -> & ->).
    simpl. split_and!; try done.
    by rewrite (assoc_L (∪)), (comm_L (∪) _ {[n]}).
Qed.

Lemma dispatch_frame ev w :
  let w' := dispatch ev w in
  phase w' = phase w ∧ seat_handler w' = seat_handler w
  ∧ status_handlers w' = status_handlers w
  ∧ wire w' = wire w ∧ spawned w' = spawned w ∧ seen w' = seen w
  ∧ _ready (self w') = _ready (self w)
  ∧ outputs (self w') = outputs (self w)
  ∧ river_control (self w') = river_control (self w)
  ∧ seat (self w') = seat (self w)
  ∧ river_status_mgr (self w') = river_status_mgr (self w)
  ∧ _display (self w') = _display (self w).
Proof.
  destruct ev; simpl;
    unfold_handlers;
    repeat case_match; simplify_eq/=; done.
Qed.
End frames.

(** ** Invariants of the session *)

Section invariants.
Implicit Types (w : World) (a : label) (ev : wire_event)
  (m : gmap Z loc) (h : gmap loc OutputInfo).

Lemma tracked_ok_alter m h l (f : OutputInfo → OutputInfo) :
  (∀ r, name (f r) = name r) →
  tracked_ok m h → tracked_ok m (alter f l h).
Proof.
  intros Hf Hm n l' Hl'. destruct (Hm n l' Hl') as (r & Hr & Hn).
  destruct (decide (l = l')) as [->|Hne].
  - exists (f r). by rewrite lookup_alter_eq, Hr, Hf.
  - exists r. by rewrite lookup_alter_ne.
Qed.

Lemma tracked_ok_alloc m h l r :
  h !! l = None → tracked_ok m h → tracked_ok m (<[l := r]> h).
Proof.
  intros Hl Hm n l' Hl'. destruct (Hm n l' Hl') as (r' & Hr' & Hn).
  exists r'. rewrite lookup_insert_ne; [done|congruence].
Qed.

Lemma tracked_ok_insert m h n l r :
  h !! l = Some r → name r = n →
  tracked_ok m h → tracked_ok (<[n := l]> m) h.
Proof.
  intros Hl Hn Hm n' l'. rewrite lookup_insert.
  case_decide; [|by apply Hm]. intros; simplify_eq. eauto.
Qed.

Lemma tracked_ok_delete m h n :
  tracked_ok m h → tracked_ok (delete n m) h.
Proof.
  intros Hm n' l'. rewrite lookup_delete.
  case_decide; [done|by apply Hm].
Qed.

Lemma tracked_ok_union m1 m2 h :
  tracked_ok m1 h → tracked_ok m2 h → tracked_ok (m1 ∪ m2) h.
Proof.
  intros H1 H2 n l [?|[_ ?]]%lookup_union_Some_raw; [by apply H1|by apply H2].
Qed.

Lemma heap_ok_ext w w' :
  st_outputs (state w') = st_outputs (state w) →
  outputs (self w') = outputs (self w) →
  heap w' = heap w → heap_ok w → heap_ok w'.
Proof. unfold heap_ok. by intros -> -> ->. Qed.

Lemma heap_ok_init : heap_ok __init__.
Proof. split; intros n l; simpl; by rewrite lookup_empty. Qed.

Lemma heap_ok_dispatch ev w : heap_ok w → heap_ok (dispatch ev w).
Proof.
  intros [Hs Ho]. destruct ev; simpl;
    unfold handle_global, handle_global_remove, focused_view_handler,
      make_view_tags_handler, make_focused_tags_handler,
      make_urgent_tags_handler, on_completion, handle_success,
      handle_failure, heap_ok;
    repeat case_match; simplify_eq/=;
    try done;
    try (split; by apply tracked_ok_alter).
  - split.
    + apply (tracked_ok_insert _ _ _ _
               (new_OutputInfo nm (Bound nm "wl_output" version)));
        [apply lookup_insert_eq|done|].
      apply tracked_ok_alloc; [apply new_loc_fresh|done].
    + apply tracked_ok_alloc; [apply new_loc_fresh|done].
  - split; [by apply tracked_ok_delete|done].
Qed.

Lemma heap_ok_bind_output_status (items : list (Z * loc)) w :
  heap_ok w → heap_ok (foldl bind_output_status w items).
Proof.
  revert w. induction items as [|[n l] items IH]; intros w Hw; [done|].
  apply IH. destruct Hw. split; by apply tracked_ok_alter.
Qed.

Lemma heap_ok_step w a : heap_ok w → heap_ok (step w a).
Proof.
  intros Hw. by_label a; simpl.
  - by destruct (phase w).
  - destruct (phase w); auto using heap_ok_dispatch.
  - destruct (phase w); try done.
    + unfold wire_listeners. destruct (st_river_status_mgr _); [|done].
      match goal with
      | |- heap_ok (set_phase _ (foldl _ ?w0 ?items)) =>
          assert (heap_ok w0) as Hw0
            by (destruct (st_seat (state w)); [by apply (heap_ok_ext w)|done]);
          apply (heap_ok_ext (foldl bind_output_status w0 items)); [done..|];
          by apply heap_ok_bind_output_status
      end.
    + destruct Hw as [Hs Ho]. split; simpl; [done|].
      by apply tracked_ok_union.
  - by destruct (phase w).
  - destruct (idle w) as [|d q]; [done|].
    destruct (run_deferred_frame d (set_idle q w))
      as (Hst & Hh & _ & _ & _ & _ & _ & _ & _ & Ho & _).
    apply (heap_ok_ext w); [by rewrite Hst|done..].
  - destruct (run_command_frame os command args callback w)
      as (Hs & Hst & Hh & _).
    apply (heap_ok_ext w); [by rewrite Hst|by rewrite Hs|done..].
  - destruct (toggle_focused_tag_frame os tag callback w)
      as (Hs & Hst & Hh & _).
    apply (heap_ok_ext w); [by rewrite Hst|by rewrite Hs|done..].
Qed.

Lemma heap_ok_run tr w : heap_ok w → heap_ok (run w tr).
Proof.
  revert w. induction tr as [|a tr IH]; intros w Hw; [done|].
  apply IH, heap_ok_step, Hw.
Qed.
End invariants.

Section readiness.
Implicit Types (w : World) (a : label) (ev : wire_event) (d : deferred).

Lemma ready_pending_dispatch ev w :
  ready_pending (dispatch ev w) = ready_pending w.
Proof.
  destruct ev; simpl;
    unfold_handlers;
    repeat case_match; simplify_eq/=; try done;
    unfold ready_pending; simpl;
    rewrite List.filter_app, length_app; simpl; lia.
Qed.

Lemma status_mgr_dispatch ev w :
  is_Some (st_river_status_mgr (state w)) →
  is_Some (st_river_status_mgr (state (dispatch ev w))).
Proof.
  destruct ev; simpl;
    unfold_handlers;
    repeat case_match; simplify_eq/=; eauto.
Qed.

Lemma ready_ok_init : ready_ok __init__.
Proof. unfold ready_ok. simpl. split_and!; try done. Qed.

Lemma ready_ok_step w a : ready_ok w → ready_ok (step w a).
Proof.
  intros (Hr & Hm & Hd & Hp). by_label a; simpl.
  - destruct (phase w) eqn:Hph; unfold ready_ok; rewrite ?Hph; try done.
  - assert (ready_ok (dispatch ev w)) as H.
    { destruct (dispatch_frame ev w)
        as (Hph & _ & _ & _ & _ & Hseen & Hrd & _ & _ & _ & Hmgr & Hdisp).
      unfold ready_ok, ready_emitted.
      rewrite Hph, Hseen, Hrd, Hmgr, Hdisp, ready_pending_dispatch.
      split_and!; try done. intros ?. by apply status_mgr_dispatch, Hm. }
    destruct (phase w) eqn:Hph; unfold ready_ok; rewrite ?Hph; done.
  - destruct (phase w) eqn:Hph; unfold ready_ok; rewrite ?Hph; try done.
    + unfold wire_listeners.
      destruct (st_river_status_mgr (state w)) as [mgr|] eqn:Hmgr.
      * match goal with
        | |- context [foldl bind_output_status ?w0 ?items] =>
            destruct (foldl_bind_output_status_frame items w0)
              as (Hs & Hst & _ & _ & _ & _ & _ & Hi & Hse & _);
            assert (self w0 = self w ∧ idle w0 = idle w ∧ seen w0 = seen w
                    ∧ st_river_status_mgr (state w0) = Some mgr) as (E1 & E2 & E3 & E4)
              by (destruct (st_seat (state w)); done)
        end.
        unfold ready_pending, ready_emitted in *. simpl.
        rewrite Hs, Hst, Hi, Hse, E1, E2, E3, E4.
        split_and!; eauto.
      * simpl. unfold ready_pending, ready_emitted in *. simpl.
        split_and!; try done. lia.
    + unfold publish. unfold ready_pending, ready_emitted in *. simpl.
      rewrite List.filter_app, length_app. simpl.
      destruct (Hm eq_refl) as [mgr Hmgr].
      rewrite Hmgr. split_and!; eauto; lia.
  - destruct (phase w) eqn:Hph; unfold ready_ok; simpl; rewrite ?Hph;
      unfold ready_pending, ready_emitted in *; simpl;
      split_and!; try done; lia.
  - destruct (idle w) as [|d q] eqn:Hq.
    { unfold ready_ok. done. }
    unfold ready_ok, ready_pending, ready_emitted in *.
    rewrite Hq in *. simpl in *.
    destruct d; simpl in *; rewrite ?List.filter_app, ?length_app; simpl;
      (split_and!; [|done|try done; intros; apply Hd; lia
                    |destruct (phase w); lia]).
    all: try (rewrite Hr; lia).
    destruct (phase w); split; intros; try lia; try done.
  - destruct (run_command_frame os command args callback w)
      as (Hs & Hst & _ & Hph & _ & _ & Hi & Hse).
    unfold ready_ok, ready_pending, ready_emitted in *.
    by rewrite Hs, Hst, Hph, Hi, Hse.
  - destruct (toggle_focused_tag_frame os tag callback w)
      as (Hs & Hst & _ & Hph & _ & _ & Hi & Hse).
    unfold ready_ok, ready_pending, ready_emitted in *.
    by rewrite Hs, Hst, Hph, Hi, Hse.
Qed.
End readiness.

Section traces.
Implicit Types (w : World) (a : label) (ev : wire_event)
  (tr : list label).

Lemma run_app w tr1 tr2 : run w (tr1 ++ tr2) = run (run w tr1) tr2.
Proof. apply foldl_app. Qed.

Lemma run_snoc w tr a : run w (tr ++ [a]) = step (run w tr) a.
Proof. by rewrite run_app. Qed.

Lemma stays_phase w a :
  stays a = true → phase w ≠ Starting → phase (step w a) = phase w.
Proof.
  intros Ha Hw. by_label a; simpl in *; try done.
  - by destruct (phase w) eqn:E.
  - destruct (dispatch_frame ev w) as [? _]. by destruct (phase w) eqn:E.
  - destruct (idle w) as [|d q]; [done|].
    by destruct (run_deferred_frame d (set_idle q w)) as (_ & _ & -> & _).
  - by destruct (run_command_frame os command args callback w)
      as (_ & _ & _ & -> & _).
  - by destruct (toggle_focused_tag_frame os tag callback w)
      as (_ & _ & _ & -> & _).
Qed.

Lemma stays_run_phase w tr :
  forallb stays tr = true → phase w ≠ Starting →
  phase (run w tr) = phase w.
Proof.
  revert w. induction tr as [|a tr IH]; intros w Htr Hw; [done|].
  simpl in Htr. apply andb_true_iff in Htr as [Ha Htr]. simpl.
  rewrite IH; [by apply stays_phase|done|]. by rewrite stays_phase.
Qed.

(** The task-local handles change only when the registry advertises
    their interface. *)
Lemma handle_global_handles nm i v w :
  let w' := handle_global nm i v w in
  st_river_status_mgr (state w')
  = (if bool_decide (i = "zriver_status_manager_v1")
     then Some (Bound nm i v) else st_river_status_mgr (state w))
  ∧ st_river_control (state w')
  = (if bool_decide (i = "zriver_control_v1")
     then Some (Bound nm i v) else st_river_control (state w))
  ∧ st_seat_status (state w') = st_seat_status (state w).
Proof.
  unfold handle_global. repeat case_decide; subst; simpl; done.
Qed.

Lemma dispatch_handles ev w :
  (∀ nm i v, ev ≠ Global nm i v) →
  st_river_status_mgr (state (dispatch ev w))
  = st_river_status_mgr (state w)
  ∧ st_river_control (state (dispatch ev w)) = st_river_control (state w)
  ∧ st_seat_status (state (dispatch ev w)) = st_seat_status (state w).
Proof.
  intros Hev. destruct ev; simpl;
    unfold handle_global_remove, focused_view_handler,
      make_view_tags_handler, make_focused_tags_handler,
      make_urgent_tags_handler, on_completion, handle_success,
      handle_failure;
    repeat case_match; simplify_eq/=; try done.
  by destruct (Hev nm iface version).
Qed.

Lemma wire_listeners_handles w :
  st_river_status_mgr (state (wire_listeners w))
  = st_river_status_mgr (state w)
  ∧ st_river_control (state (wire_listeners w))
  = st_river_control (state w).
Proof.
  unfold wire_listeners. destruct (st_river_status_mgr (state w)) eqn:E.
  - simpl.
    match goal with
    | |- context [foldl bind_output_status ?w0 ?items] =>
        destruct (foldl_bind_output_status_frame items w0)
          as (_ & -> & _)
    end.
    by destruct (st_seat (state w)).
  - done.
Qed.

Lemma step_handles w a :
  (is_global "zriver_status_manager_v1" a = false →
     st_river_status_mgr (state (step w a))
     = st_river_status_mgr (state w))
  ∧ (is_global "zriver_control_v1" a = false →
     st_river_control (state (step w a)) = st_river_control (state w)).
Proof.
  by_label a; simpl.
  - by destruct (phase w).
  - assert ((is_global "zriver_status_manager_v1" (Deliver ev) = false →
       st_river_status_mgr (state (dispatch ev w))
       = st_river_status_mgr (state w))
      ∧ (is_global "zriver_control_v1" (Deliver ev) = false →
       st_river_control (state (dispatch ev w))
       = st_river_control (state w))) as H.
    { destruct ev as [nm i v| | | | | | |];
        [destruct (handle_global_handles nm i v w) as (H1 & H2 & _);
         simpl in *; split; intros Hi; [rewrite H1|rewrite H2];
         by rewrite Hi
        |match goal with
         | |- context [dispatch ?e w] =>
             destruct (dispatch_handles e w) as (-> & -> & _); done
         end ..]. }
    destruct (phase w); done.
  - destruct (wire_listeners_handles w). destruct (phase w); done.
  - by destruct (phase w).
  - destruct (idle w) as [|d q]; [done|].
    by destruct (run_deferred_frame d (set_idle q w)) as (-> & _).
  - by destruct (run_command_frame os command args callback w)
      as (_ & -> & _).
  - by destruct (toggle_focused_tag_frame os tag callback w)
      as (_ & -> & _).
Qed.

Lemma not_advertised_status_mgr w tr :
  advertised "zriver_status_manager_v1" tr = false →
  st_river_status_mgr (state (run w tr)) = st_river_status_mgr (state w).
Proof.
  revert w. induction tr as [|a tr IH]; intros w Htr; [done|].
  simpl in Htr. apply orb_false_iff in Htr as [Ha Htr]. simpl.
  rewrite IH by done. by apply step_handles.
Qed.

Lemma not_advertised_control w tr :
  advertised "zriver_control_v1" tr = false →
  st_river_control (state (run w tr)) = st_river_control (state w).
Proof.
  revert w. induction tr as [|a tr IH]; intros w Htr; [done|].
  simpl in Htr. apply orb_false_iff in Htr as [Ha Htr]. simpl.
  rewrite IH by done. by apply step_handles.
Qed.

Lemma status_mgr_step w a :
  is_Some (st_river_status_mgr (state w)) →
  is_Some (st_river_status_mgr (state (step w a))).
Proof.
  intros Hw. destruct (is_global "zriver_status_manager_v1" a) eqn:Ha.
  - destruct a as [|[]| | | | |]; try done. simpl in *.
    destruct (phase w); try done; by apply (status_mgr_dispatch (Global _ _ _)).
  - destruct (step_handles w a) as [-> _]; done.
Qed.

Lemma status_mgr_run w tr :
  is_Some (st_river_status_mgr (state w)) →
  is_Some (st_river_status_mgr (state (run w tr))).
Proof.
  revert w. induction tr as [|a tr IH]; intros w Hw; [done|].
  apply IH, status_mgr_step, Hw.
Qed.

Lemma advertised_status_mgr w tr :
  advertised "zriver_status_manager_v1" tr = true →
  forallb stays tr = true → phase w = Discovering →
  is_Some (st_river_status_mgr (state (run w tr))).
Proof.
  revert w. induction tr as [|a tr IH]; intros w Hadv Htr Hw; [done|].
  simpl in *. apply andb_true_iff in Htr as [Ha Htr].
  destruct (is_global "zriver_status_manager_v1" a) eqn:Hg.
  - apply status_mgr_run.
    destruct a as [|[nm i v| | | | | | |]| | | | |]; try done. simpl in *.
    rewrite Hw. destruct (handle_global_handles nm i v w) as (-> & _).
    rewrite Hg. eauto.
  - apply IH; [done..|]. rewrite stays_phase; [done..|]. by rewrite Hw.
Qed.
End traces.

(** ** The three tag streams *)

Section tags.
Implicit Types (w : World) (o : Z) (t : bitfields) (l : loc)
  (r : OutputInfo).

(** What a tag handler may touch: the heap object of its output, and
    the idle queue. *)
Lemma tag_handler_frame w t l r (f : list Z → OutputInfo → OutputInfo)
    (d : deferred) :
  heap w !! l = Some r →
  let w' := idle_add d (upd_heap (alter (f (_decode_bitfields t)) l) w) in
  heap w' !! l = Some (f (_decode_bitfields t) r)
  ∧ (∀ l', l' ≠ l → heap w' !! l' = heap w !! l')
  ∧ state w' = state w ∧ self w' = self w
  ∧ idle w' = idle w ++ [d].
Proof.
  intros Hr. simpl. split_and!; try reflexivity.
  - by rewrite lookup_alter_eq, Hr.
  - intros l' Hne. by rewrite lookup_alter_ne.
Qed.

End tags.

Section ready.
Implicit Types (w : World) (a : label) (tr : list label).

Lemma ready_step_mono w a :
  _ready (self w) = true → _ready (self (step w a)) = true.
Proof.
  intros Hw. by_label a; simpl.
  - by destruct (phase w).
  - destruct (dispatch_frame ev w) as (_ & _ & _ & _ & _ & _ & Hr & _).
    destruct (phase w); congruence.
  - destruct (phase w); try done.
    unfold wire_listeners. destruct (st_river_status_mgr _); [|done].
    simpl.
    match goal with
    | |- context [foldl bind_output_status ?w0 ?items] =>
        destruct (foldl_bind_output_status_frame items w0) as (-> & _)
    end.
    by destruct (st_seat (state w)).
  - by destruct (phase w).
  - destruct (idle w) as [|d q]; [done|]. by destruct d.
  - by destruct (run_command_frame os command args callback w) as (-> & _).
  - by destruct (toggle_focused_tag_frame os tag callback w) as (-> & _).
Qed.

Lemma ready_run_mono w tr :
  _ready (self w) = true → _ready (self (run w tr)) = true.
Proof.
  revert w. induction tr as [|a tr IH]; intros w Hw; [done|].
  apply IH, ready_step_mono, Hw.
Qed.

(** Along any trace the flag has no falling edge, and one rising edge
    exactly when it is down at the start and up at the end. *)
Lemma ready_edges w tr :
  falls (ready_trace w tr) = 0%nat
  ∧ rises (ready_trace w tr)
    = (if negb (_ready (self w)) && _ready (self (run w tr))
       then 1 else 0)%nat.
Proof.
  revert w. induction tr as [|a tr IH]; intros w.
  - simpl. by destruct (_ready (self w)).
  - destruct (IH (step w a)) as [IHf IHr].
    change (ready_trace w (a :: tr))
      with (_ready (self w) :: ready_trace (step w a) tr).
    change (run w (a :: tr)) with (run (step w a) tr).
    destruct tr as [|a' tr].
    + simpl in *. pose proof (ready_step_mono w a).
      destruct (_ready (self w)), (_ready (self (step w a))); auto.
      discriminate H; done.
    + change (ready_trace (step w a) (a' :: tr))
        with (_ready (self (step w a))
              :: ready_trace (step (step w a) a') tr) in *.
      change (falls (?b :: ?b' :: ?r))
        with ((if b && negb b' then 1 else 0) + falls (b' :: r))%nat.
      change (rises (?b :: ?b' :: ?r))
        with ((if negb b && b' then 1 else 0) + rises (b' :: r))%nat.
      rewrite IHf, IHr.
      pose proof (ready_step_mono w a).
      pose proof (ready_run_mono (step w a) (a' :: tr)).
      destruct (_ready (self w)), (_ready (self (step w a))),
        (_ready (self (run (step w a) (a' :: tr)))); simpl; auto;
        try (discriminate H; done); try (discriminate H0; done).
Qed.

Lemma ready_ok_run tr w : ready_ok w → ready_ok (run w tr).
Proof.
  revert w. induction tr as [|a tr IH]; intros w Hw; [done|].
  apply IH, ready_ok_step, Hw.
Qed.

Lemma idle_step_Idle w :
  idle (step w Idle) = tail (idle w).
Proof.
  simpl. destruct (idle w) as [|d q] eqn:E; [by rewrite E|].
  by destruct (run_deferred_frame d (set_idle q w))
    as (_ & _ & _ & _ & _ & _ & _ & _ & -> & _).
Qed.

Lemma idle_run_Idle n w :
  idle (run w (replicate n Idle)) = drop n (idle w).
Proof.
  revert w. induction n as [|n IH]; intros w; [by rewrite drop_0|].
  change (run w (replicate (S n) Idle))
    with (run (step w Idle) (replicate n Idle)).
  rewrite IH, idle_step_Idle.
  destruct (idle w); simpl; by rewrite ?drop_nil.
Qed.

Lemma idle_drain w : idle (drain w) = [].
Proof. unfold drain. rewrite idle_run_Idle. apply drop_all. Qed.

Lemma phase_drain w : phase w ≠ Starting → phase (drain w) = phase w.
Proof.
  intros Hw. apply stays_run_phase; [|done].
  by induction (length (idle w)).
Qed.

(** The worker's progress through a session whose status manager is
    advertised during the first round trip. *)
Lemma session_phases tr1 tr2 :
  forallb stays tr1 = true → forallb stays tr2 = true →
  advertised "zriver_status_manager_v1" tr1 = true →
  let w0 := run __init__ (Connect :: tr1) in
  let w1 := step w0 RoundtripDone in
  let w2 := run w1 tr2 in
  run __init__ (session tr1 tr2) = publish w2
  ∧ phase w0 = Discovering
  ∧ is_Some (st_river_status_mgr (state w0))
  ∧ w1 = wire_listeners w0 ∧ phase w1 = Collecting
  ∧ phase w2 = Collecting.
Proof.
  intros H1 H2 Hadv w0 w1 w2.
  assert (phase w0 = Discovering) as Hp0.
  { subst w0. change (run __init__ (Connect :: tr1))
      with (run (set_phase Discovering __init__) tr1).
    by rewrite stays_run_phase. }
  assert (is_Some (st_river_status_mgr (state w0))) as Hm.
  { by apply (advertised_status_mgr (set_phase Discovering __init__)). }
  assert (w1 = wire_listeners w0) as Hw1.
  { subst w1. simpl. by rewrite Hp0. }
  assert (phase w1 = Collecting) as Hp1.
  { rewrite Hw1. unfold wire_listeners. by destruct Hm as [? ->]. }
  assert (phase w2 = Collecting) as Hp2.
  { subst w2. rewrite stays_run_phase; [done..|]. by rewrite Hp1. }
  split_and!; try done.
  unfold session.
  change (Connect :: tr1 ++ [RoundtripDone] ++ tr2 ++ [RoundtripDone])
    with ((Connect :: tr1) ++ [RoundtripDone] ++ tr2 ++ [RoundtripDone]).
  rewrite run_app. fold w0.
  change (run w0 ([RoundtripDone] ++ tr2 ++ [RoundtripDone]))
    with (run w1 (tr2 ++ [RoundtripDone])).
  rewrite run_snoc. fold w2. simpl. by rewrite Hp2.
Qed.

Lemma session_ready tr1 tr2 :
  forallb stays tr1 = true → forallb stays tr2 = true →
  advertised "zriver_status_manager_v1" tr1 = true →
  let w := run __init__ (session tr1 tr2) in
  phase w = Dispatching
  ∧ _ready (self w) = false
  ∧ (ready_pending w + ready_emitted w = 1)%nat
  ∧ _ready (self (drain w)) = true
  ∧ ready_emitted (drain w) = 1%nat.
Proof.
  intros H1 H2 Hadv w.
  destruct (session_phases tr1 tr2 H1 H2 Hadv)
    as (Hrun & _ & _ & _ & _ & Hp2).
  assert (phase w = Dispatching) as Hp by (subst w; by rewrite Hrun).
  assert (_ready (self w) = false) as Hnr.
  { pose proof (ready_ok_run (session tr1 tr2) __init__ ready_ok_init)
      as (Hrd0 & _).
    fold w in Hrd0.
    assert (ready_emitted w = 0%nat) as E.
    { unfold w. rewrite Hrun.
      match goal with
      | |- ready_emitted (publish ?w2) = _ =>
          change (ready_emitted w2 = 0%nat);
          assert (ready_ok w2) as (_ & _ & _ & Hc2)
            by apply ready_ok_run, ready_ok_step, ready_ok_run, ready_ok_init;
          rewrite Hp2 in Hc2; lia
      end. }
    destruct (_ready (self w)); [|done].
    destruct Hrd0 as [Hx _]. specialize (Hx eq_refl). lia. }
  pose proof (ready_ok_run (session tr1 tr2) __init__ ready_ok_init)
    as (_ & _ & _ & Hc).
  fold w in Hc. rewrite Hp in Hc.
  assert (ready_ok (drain w)) as (Hrd & _ & _ & Hcd).
  { unfold drain, w. rewrite <-run_app.
    apply ready_ok_run, ready_ok_init. }
  rewrite phase_drain, Hp in Hcd by (by rewrite Hp).
  assert (ready_pending (drain w) = 0%nat) as Hz.
  { unfold ready_pending. by rewrite idle_drain. }
  assert (ready_emitted (drain w) = 1%nat) as He by lia.
  split_and!; try done. by apply Hrd.
Qed.

(** C5: [ready] is false after construction; no step of the service
  takes it from true to false; along every run it rises at most once,
  [_set_ready] is scheduled at most once, and the flag is up only after
  the code that follows the second round trip has run; in a session whose
  status manager is advertised during discovery it rises exactly once,
  when the main loop runs the idle queue. *)
Theorem ready_once :
  _ready (self __init__) = false
  ∧ (∀ w a, _ready (self w) = true → _ready (self (step w a)) = true)
  ∧ (∀ tr,
       let w := run __init__ tr in
       falls (ready_trace __init__ tr) = 0%nat
       ∧ (rises (ready_trace __init__ tr) ≤ 1)%nat
       ∧ (ready_pending w + ready_emitted w ≤ 1)%nat
       ∧ (_ready (self w) = true →
            ready_emitted w = 1%nat ∧ _display (self w) = true
            ∧ is_Some (river_status_mgr (self w))
            ∧ (phase w = Dispatching ∨ phase w = Exited)))
  ∧ (∀ tr1 tr2,
       forallb stays tr1 = true → forallb stays tr2 = true →
       advertised "zriver_status_manager_v1" tr1 = true →
       let w := run __init__ (session tr1 tr2) in
       phase w = Dispatching
       ∧ _ready (self w) = false
       ∧ (ready_pending w + ready_emitted w = 1)%nat
       ∧ _ready (self (drain w)) = true
       ∧ ready_emitted (drain w) = 1%nat
       ∧ rises (ready_trace __init__
                  (session tr1 tr2 ++ replicate (length (idle w)) Idle))
         = 1%nat).
Proof.
  split_and!.
  - reflexivity.
  - apply ready_step_mono.
  - intros tr w. destruct (ready_edges __init__ tr) as [Hf Hr].
    pose proof (ready_ok_run tr __init__ ready_ok_init) as (Hrd & _ & Hd & Hp).
    fold w in Hrd, Hd, Hp. split_and!.
    + done.
    + rewrite Hr. destruct (_ && _); lia.
    + destruct (phase w); lia.
    + intros Hw. apply Hrd in Hw. split; [done|].
      assert (ready_pending w + ready_emitted w = 1)%nat as H1
        by (destruct (phase w); lia).
      destruct (Hd H1). split_and!; try done.
      destruct (phase w); auto; lia.
  - intros tr1 tr2 H1 H2 Hadv w.
    destruct (session_ready tr1 tr2 H1 H2 Hadv) as (Hp & Hn & Hc & Hr & He).
    split_and!; try done.
    destruct (ready_edges __init__
      (session tr1 tr2 ++ replicate (length (idle w)) Idle)) as [_ ->].
    subst w. unfold drain in Hr. rewrite run_app. by rewrite Hr.
Qed.
End ready.

Section discovery.
Implicit Types (w : World) (a : label) (ev : wire_event)
  (tr : list label).

Lemma unwired_ext w w' :
  seat_handler w' = seat_handler w →
  status_handlers w' = status_handlers w →
  st_seat_status (state w') = st_seat_status (state w) →
  heap w' = heap w → unwired w → unwired w'.
Proof. unfold unwired. by intros -> -> -> ->. Qed.

Lemma unwired_dispatch ev w : unwired w → unwired (dispatch ev w).
Proof.
  intros (Hs & Hh & Hss & Hheap).
  destruct ev; simpl; rewrite ?Hs, ?Hh;
    try (destruct (decide (_ ∈ ∅)) as [[]%not_elem_of_empty|]);
    try done.
  - unfold handle_global. repeat case_decide; try done.
    split_and!; try done. simpl. intros l r.
    rewrite lookup_insert. case_decide; [|by apply Hheap].
    by intros [= <-].
  - unfold handle_global_remove. case_decide; done.
  - unfold on_completion, handle_success.
    repeat case_match; simplify_eq/=; done.
  - unfold on_completion, handle_failure.
    repeat case_match; simplify_eq/=; done.
Qed.

Lemma unwired_step w a :
  stays a = true → unwired w → unwired (step w a).
Proof.
  intros Ha Hw. by_label a; simpl in *; try done.
  - by destruct (phase w).
  - destruct (phase w); auto using unwired_dispatch.
  - destruct (idle w) as [|d q]; [done|].
    destruct (run_deferred_frame d (set_idle q w))
      as (Hst & Hh & _ & Hsh & Hhs & _).
    apply (unwired_ext w); [done..|by rewrite Hst|done|done].
  - destruct (run_command_frame os command args callback w)
      as (_ & Hst & Hh & _ & Hsh & Hhs & _).
    apply (unwired_ext w); [done..|by rewrite Hst|done|done].
  - destruct (toggle_focused_tag_frame os tag callback w)
      as (_ & Hst & Hh & _ & Hsh & Hhs & _).
    apply (unwired_ext w); [done..|by rewrite Hst|done|done].
Qed.

(** Once the task has returned nothing moves it, and a flag that is
    down with no [_set_ready] scheduled stays down. *)
Lemma exited_step w a : phase w = Exited → phase (step w a) = Exited.
Proof.
  intros Hw. by_label a; simpl; rewrite ?Hw; try done.
  - destruct (idle w) as [|d q]; [done|].
    by destruct (run_deferred_frame d (set_idle q w)) as (_ & _ & -> & _).
  - by destruct (run_command_frame os command args callback w)
      as (_ & _ & _ & -> & _).
  - by destruct (toggle_focused_tag_frame os tag callback w)
      as (_ & _ & _ & -> & _).
Qed.

Lemma heap_bind_output_status (items : list (Z * loc)) w l :
  heap (foldl bind_output_status w items) !! l
  = (if decide (l ∈ items.*2)
     then (λ r, set_status (Some (OutputStatus (output r))) r)
     else id) <$> heap w !! l.
Proof.
  revert w. induction items as [|[n l0] items IH]; intros w.
  - rewrite decide_False by apply not_elem_of_nil.
    simpl. by rewrite option_fmap_id.
  - change (foldl bind_output_status w ((n, l0) :: items))
      with (foldl bind_output_status (bind_output_status w (n, l0)) items).
    rewrite IH. rewrite fmap_cons.
    change (heap (bind_output_status w (n, l0)))
      with (alter (λ r, set_status (Some (OutputStatus (output r))) r)
              l0 (heap w)).
    rewrite lookup_alter.
    destruct (decide (l0 = l)) as [->|Hne].
    + rewrite (decide_True (P := l ∈ _ :: _)) by left.
      destruct (heap w !! l); simpl; by case_decide.
    + destruct (decide (l ∈ items.*2)) as [Hin|Hnin].
      * rewrite (decide_True (P := l ∈ _ :: _)); [done|by right].
      * rewrite (decide_False (P := l ∈ _ :: _)); [done|].
        intros [?|?]%elem_of_cons; simpl in *; congruence.
Qed.

Lemma wire_listeners_wired w :
  is_Some (st_river_status_mgr (state w)) →
  unwired w → heap_ok w →
  wired (wire_listeners w) ∧ phase (wire_listeners w) = Collecting.
Proof.
  intros [mgr Hm] (Hs & Hh & Hss & Hheap) [Hok _].
  unfold wire_listeners. rewrite Hm.
  match goal with
  | |- context [foldl bind_output_status ?w0 _] => set (w0' := w0)
  end.
  set (items := map_to_list (st_outputs (state w0'))).
  pose proof (foldl_bind_output_status_frame items w0')
    as (_ & Hst & _ & Hsh & _ & _ & _ & _ & _ & Hhs).
  pose proof (heap_bind_output_status items w0') as Hheap'.
  assert (st_outputs (state w0') = st_outputs (state w)
          ∧ st_seat (state w0') = st_seat (state w)
          ∧ heap w0' = heap w ∧ status_handlers w0' = ∅
          ∧ (seat_handler w0' = true ↔ is_Some (st_seat (state w))))
    as (E1 & E2 & E3 & E4 & E5).
  { subst w0'. destruct (st_seat (state w)) eqn:E; simpl;
      rewrite ?E; split_and!; try done.
    rewrite Hs. split; [done|]. by intros []. }
  split; [|done]. unfold wired. simpl.
  rewrite Hst, Hsh, Hhs, E2, E4. subst items. rewrite E1 in *. split_and!.
  - apply set_eq. intros n.
    rewrite elem_of_union, elem_of_list_to_set, elem_of_dom,
      list_elem_of_fmap.
    split.
    + intros [([n' l] & -> & Hnl%elem_of_map_to_list)|[]%not_elem_of_empty].
      eauto.
    + intros [l Hl]. left. exists (n, l). split; [done|].
      by apply elem_of_map_to_list.
  - done.
  - intros n l Hl. destruct (Hok n l Hl) as (r & Hr & _).
    rewrite Hheap', E3, Hr.
    destruct (decide _) as [|Hnin].
    + eexists. split; [done|]. done.
    + destruct Hnin. apply list_elem_of_fmap. exists (n, l).
      split; [done|]. by apply elem_of_map_to_list.
Qed.
End discovery.

Section outcome.
Implicit Types (w : World) (a : label) (ev : wire_event)
  (tr : list label).

Lemma self_dispatch ev w :
  seat_handler w = false → self (dispatch ev w) = self w.
Proof.
  intros Hs. destruct ev; simpl; rewrite ?Hs;
    unfold handle_global, handle_global_remove,
      make_view_tags_handler, make_focused_tags_handler,
      make_urgent_tags_handler, on_completion, handle_success,
      handle_failure;
    repeat case_match; simplify_eq/=; done.
Qed.

Lemma untouched_step w a :
  stays a = true ∨ phase w = Exited →
  untouched w → untouched (step w a).
Proof.
  intros Ha (Hu & Hs & Hp).
  destruct (decide (stays a = true)) as [Hst|Hst].
  - split; [by apply unwired_step|].
    by_label a; simpl in *; try done.
    + by destruct (phase w).
    + pose proof (ready_pending_dispatch ev w) as Hpd.
      pose proof (self_dispatch ev w (proj1 Hu)) as Hsd.
      destruct (phase w); try done; by rewrite Hsd, Hpd.
    + unfold ready_pending in *.
      destruct (idle w) as [|d q] eqn:Hq; [by rewrite Hq|].
      destruct d; simpl in *; try done.
    + destruct (run_command_frame os command args callback w)
        as (-> & _ & _ & _ & _ & _ & Hi & _).
      unfold ready_pending. by rewrite Hi.
    + destruct (toggle_focused_tag_frame os tag callback w)
        as (-> & _ & _ & _ & _ & _ & Hi & _).
      unfold ready_pending. by rewrite Hi.
  - destruct Ha as [?|Hex]; [done|].
    by_label a; simpl in *; try done; by rewrite Hex.
Qed.

Lemma untouched_run w tr :
  forallb stays tr = true → untouched w → untouched (run w tr).
Proof.
  revert w. induction tr as [|a tr IH]; intros w Htr Hw; [done|].
  simpl in Htr. apply andb_true_iff in Htr as [Ha Htr].
  apply IH; [done|]. apply untouched_step; auto.
Qed.

Lemma untouched_exited_run w tr :
  phase w = Exited → untouched w →
  phase (run w tr) = Exited ∧ untouched (run w tr).
Proof.
  revert w. induction tr as [|a tr IH]; intros w Hp Hw; [done|].
  apply IH; [by apply exited_step|]. apply untouched_step; auto.
Qed.

Lemma untouched_connect : untouched (step __init__ Connect).
Proof.
  by split_and!.
Qed.

(** C7: when the first round trip ends without the status manager having
  been advertised the task returns at once: no listener is wired, the
  service object is left as constructed, and every later step finds the
  session terminated and the service working (commands take the
  fallback).  When the status manager is advertised and the control
  interface is not, the listeners are wired, the session reaches its main
  loop and becomes ready, and every [run_command] takes the fallback. *)
Theorem discovery_outcome :
  (∀ tr,
     forallb stays tr = true →
     advertised "zriver_status_manager_v1" tr = false →
     let w := run __init__ (Connect :: tr ++ [RoundtripDone]) in
     phase w = Exited ∧ unwired w
     ∧ ∀ tr', let w' := run w tr' in
         phase w' = Exited ∧ unwired w' ∧ self w' = self __init__
         ∧ ready_pending w' = 0%nat
         ∧ ∀ run command args callback,
             run_command run command args callback w'
             = _run_command_fallback run command args w')
  ∧ (∀ tr1 tr2,
       forallb stays tr1 = true → forallb stays tr2 = true →
       advertised "zriver_status_manager_v1" tr1 = true →
       advertised "zriver_control_v1" (tr1 ++ tr2) = false →
       let w1 := run __init__ (Connect :: tr1 ++ [RoundtripDone]) in
       let w2 := run __init__ (session tr1 tr2) in
       phase w1 = Collecting ∧ wired w1
       ∧ phase w2 = Dispatching
       ∧ is_Some (river_status_mgr (self w2))
       ∧ river_control (self w2) = None
       ∧ _ready (self (drain w2)) = true
       ∧ ∀ run command args callback,
           run_command run command args callback w2
           = _run_command_fallback run command args w2).
Proof.
  split.
  - intros tr Htr Hadv w.
    set (w0 := run (step __init__ Connect) tr).
    assert (untouched w0) as Hu0
      by (by apply untouched_run, untouched_connect).
    assert (phase w0 = Discovering) as Hp0
      by (by apply (stays_run_phase (step __init__ Connect))).
    assert (st_river_status_mgr (state w0) = None) as Hm
      by (unfold w0; by rewrite not_advertised_status_mgr).
    assert (w = set_phase Exited w0) as ->.
    { unfold w.
      change (run __init__ (Connect :: tr ++ [RoundtripDone]))
        with (run (step __init__ Connect) (tr ++ [RoundtripDone])).
      rewrite run_snoc. fold w0. simpl. rewrite Hp0.
      unfold wire_listeners. by rewrite Hm. }
    assert (untouched (set_phase Exited w0)) as Hu by done.
    split_and!; [done|apply Hu|].
    intros tr' w'.
    destruct (untouched_exited_run (set_phase Exited w0) tr' eq_refl Hu)
      as (? & ? & Hself & ?).
    split_and!; try done.
    intros. apply run_command_fallback. left.
    change (river_control (self (run (set_phase Exited w0) tr')) = None).
    by rewrite Hself.
  - intros tr1 tr2 H1 H2 Hmgr Hctl w1 w2.
    destruct (session_phases tr1 tr2 H1 H2 Hmgr)
      as (Hrun & Hp0 & Hm0 & Hw1 & Hp1 & Hp2).
    unfold advertised in Hctl. rewrite existsb_app in Hctl.
    apply orb_false_iff in Hctl as [Hc1 Hc2].
    set (w0 := run __init__ (Connect :: tr1)) in *.
    assert (w1 = wire_listeners w0) as Hw1'.
    { unfold w1.
      change (run __init__ (Connect :: tr1 ++ [RoundtripDone]))
        with (run __init__ ((Connect :: tr1) ++ [RoundtripDone])).
      by rewrite run_snoc. }
    assert (untouched w0) as (Hu0 & _)
      by (by apply (untouched_run (step __init__ Connect)),
                   untouched_connect).
    assert (heap_ok w0) as Hh0 by apply heap_ok_run, heap_ok_init.
    destruct (wire_listeners_wired w0 Hm0 Hu0 Hh0) as [Hwired _].
    assert (st_river_control (state (run (wire_listeners w0) tr2)) = None)
      as Hctl2.
    { rewrite not_advertised_control by done.
      destruct (wire_listeners_handles w0) as [_ ->].
      unfold w0.
      change (run __init__ (Connect :: tr1))
        with (run (step __init__ Connect) tr1).
      by rewrite not_advertised_control. }
    destruct (session_ready tr1 tr2 H1 H2 Hmgr) as (Hpd & _ & _ & Hrd & _).
    assert (river_control (self w2) = None) as Hrc.
    { unfold w2. rewrite Hrun, Hw1. exact Hctl2. }
    split_and!; try done.
    + by rewrite Hw1', <-Hw1.
    + by rewrite Hw1'.
    + unfold w2. rewrite Hrun, Hw1.
      change (is_Some (st_river_status_mgr
                (state (run (wire_listeners w0) tr2)))).
      apply status_mgr_run.
      destruct (wire_listeners_handles w0) as [-> _]. done.
    + intros. unfold run_command. by rewrite Hrc.
Qed.
End outcome.

(** ** The command session *)

Section strip.
Implicit Types (s : string) (c : ascii).




End strip.

Section commands.
Implicit Types (w : World) (a : label) (k : nat) (inv : Invocation)
  (callback : option callable).


End commands.

Section completion.
Implicit Types (w : World) (a : label) (k : nat) (inv : Invocation)
  (callback : option callable).



End completion.

Section single_event.
Implicit Types (w : World) (a : label) (k : nat) (inv : Invocation)
  (tr : list label).


End single_event.

Section tag_streams.
Implicit Types (w : World) (o : Z) (t : bitfields) (l : loc)
  (r : OutputInfo) (tr : list label).

(** In a session distinct ids are distinct records. *)
Lemma tracked_distinct tr o o' l l' :
  let w := run __init__ tr in
  st_outputs (state w) !! o = Some l →
  st_outputs (state w) !! o' = Some l' ∨ outputs (self w) !! o' = Some l' →
  o' ≠ o → l' ≠ l.
Proof.
  intros w Ho Ho' Hne ->.
  destruct (heap_ok_run tr __init__ heap_ok_init) as [Hs Hself].
  destruct (Hs o l Ho) as (r & Hr & Hn).
  destruct Ho' as [Ho'|Ho'];
    [destruct (Hs o' l Ho') as (r' & Hr' & Hn')
    |destruct (Hself o' l Ho') as (r' & Hr' & Hn')];
    fold w in Hr, Hr'; congruence.
Qed.

(** C8: for an output tracked in a session, each of the three tag
  handlers stores the decoded tags in its own field of that output's
  record and changes neither the other two tag fields nor the identity of
  the record, nor any other record, nor the dicts of outputs or the
  attributes of the service; the records of other ids are other
  objects. *)
Theorem tag_streams_independent tr o t l :
  let w := run __init__ tr in
  let d := _decode_bitfields t in
  st_outputs (state w) !! o = Some l →
  ∃ r, heap w !! l = Some r ∧ name r = o
    ∧ (∃ w' r', make_view_tags_handler o t w = inr w'
         ∧ heap w' !! l = Some r' ∧ same_output r r'
         ∧ tags_view r' = d
         ∧ tags_focused r' = tags_focused r
         ∧ tags_urgent r' = tags_urgent r
         ∧ others_kept l w w'
         ∧ (o ∈ status_handlers w → dispatch (ViewTags o t) w = w'))
    ∧ (∃ w' r', make_focused_tags_handler o t w = inr w'
         ∧ heap w' !! l = Some r' ∧ same_output r r'
         ∧ tags_focused r' = d
         ∧ tags_view r' = tags_view r
         ∧ tags_urgent r' = tags_urgent r
         ∧ others_kept l w w'
         ∧ (o ∈ status_handlers w → dispatch (FocusedTags o t) w = w'))
    ∧ (∃ w' r', make_urgent_tags_handler o t w = inr w'
         ∧ heap w' !! l = Some r' ∧ same_output r r'
         ∧ tags_urgent r' = d
         ∧ tags_view r' = tags_view r
         ∧ tags_focused r' = tags_focused r
         ∧ others_kept l w w'
         ∧ (o ∈ status_handlers w → dispatch (UrgentTags o t) w = w'))
    ∧ (∀ o' l' r', o' ≠ o →
         st_outputs (state w) !! o' = Some l'
         ∨ outputs (self w) !! o' = Some l' →
         heap w !! l' = Some r' → l' ≠ l ∧ name r' = o').
Proof.
  intros w d Ho.
  destruct (heap_ok_run tr __init__ heap_ok_init) as [Hs Hself].
  destruct (Hs o l Ho) as (r & Hr & Hn). fold w in Hr.
  exists r. split; [done|]. split; [done|].
  unfold dispatch, guarded, make_view_tags_handler,
    make_focused_tags_handler, make_urgent_tags_handler. rewrite Ho.
  split_and!.
  - destruct (tag_handler_frame w t l r set_tags_view
      (DEmitViewTags o d) Hr) as (H1 & H2 & H3 & H4 & _).
    eexists _, _. split; [reflexivity|]. split; [exact H1|].
    split_and!; try done. intros Hin. by rewrite decide_True.
  - destruct (tag_handler_frame w t l r set_tags_focused
      (DEmitFocusedTags o d) Hr) as (H1 & H2 & H3 & H4 & _).
    eexists _, _. split; [reflexivity|]. split; [exact H1|].
    split_and!; try done. intros Hin. by rewrite decide_True.
  - destruct (tag_handler_frame w t l r set_tags_urgent
      (DEmitUrgentTags o d) Hr) as (H1 & H2 & H3 & H4 & _).
    eexists _, _. split; [reflexivity|]. split; [exact H1|].
    split_and!; try done. intros Hin. by rewrite decide_True.
  - intros o' l' r' Hne Ho' Hr'. split.
    + by apply (tracked_distinct tr o o').
    + destruct Ho' as [Ho'|Ho'];
        [destruct (Hs o' l' Ho') as (r'' & Hr'' & Hn')
        |destruct (Hself o' l' Ho') as (r'' & Hr'' & Hn')];
        fold w in Hr''; congruence.
Qed.

(** An event for an output that is no longer tracked changes nothing. *)
Lemma tag_event_untracked w o t :
  st_outputs (state w) !! o = None →
  dispatch (ViewTags o t) w = w ∧ dispatch (FocusedTags o t) w = w
  ∧ dispatch (UrgentTags o t) w = w.
Proof.
  intros Ho. simpl.
  unfold make_view_tags_handler, make_focused_tags_handler,
    make_urgent_tags_handler. rewrite Ho. simpl.
  by destruct (decide _).
Qed.
End tag_streams.

Section command_api.
Implicit Types (w : World) (a : label) (k : nat) (inv : Invocation)
  (callback : option callable) (run : subprocess) (command : string)
  (args : list pyarg).






End command_api.

(** ** The theorems at sample runs *)




Lemma ready_once_sample :
  _ready (self (drain (run __init__ sample_session))) = true.
Proof.
  refine (proj1 (proj2 (proj2 (proj2
            (proj2 (proj2 (proj2 ready_once)) _ _ _ _ _)))));
    vm_compute; reflexivity.
Defined.


Lemma discovery_outcome_sample :
  phase (run __init__ (Connect :: no_status_manager ++ [RoundtripDone]))
  = Exited
  ∧ river_control (self (run __init__ (session no_control []))) = None.
Proof.
  split.
  - refine (proj1 (proj1 discovery_outcome no_status_manager _ _));
      vm_compute; reflexivity.
  - refine (proj1 (proj2 (proj2 (proj2 (proj2
      (proj2 discovery_outcome no_control [] _ _ _ _))))));
      vm_compute; reflexivity.
Defined.

Lemma tag_streams_independent_sample :
  ∃ r, heap (run __init__ sample_session) !! 1%positive = Some r
       ∧ name r = 7.
Proof.
  assert (st_outputs (state (run __init__ sample_session)) !! 7
          = Some 1%positive) as H by (vm_compute; reflexivity).
  destruct (tag_streams_independent sample_session 7 (Int 5) 1%positive H)
    as (r & Hr & Hn & _).
  exists r. split; [exact Hr|exact Hn].
Defined.


(** * Further properties *)

(** ** The codec as a function of the bits *)

Section codec_more.
Implicit Types (i z : Z) (ws : list Z) (bf : bitfields).

Lemma decode_strictly_sorted bf : StronglySorted Z.lt (_decode_bitfields bf).
Proof. apply strictly_sorted; [apply Sorted_sorted|apply NoDup_sorted]. Qed.

Lemma elem_of_decode bf i :
  i ∈ _decode_bitfields bf ↔
  0 ≤ i ≤ 31 ∧ ∃ w, w ∈ as_iterable bf ∧ Z.testbit w i = true.
Proof. rewrite decode_set_positions. apply elem_of_set_positions. Qed.

Lemma elem_of_decode_Int z i :
  i ∈ _decode_bitfields (Int z) ↔ 0 ≤ i ≤ 31 ∧ Z.testbit z i = true.
Proof.
  rewrite elem_of_decode. simpl. split.
  - intros [Hi (w & Hw & Hb)]. apply list_elem_of_singleton in Hw.
    by subst.
  - intros [Hi Hb]. split; [done|]. exists z. split; [|done].
    by apply list_elem_of_singleton.
Qed.

(** Two strictly increasing lists with the same elements are the same
    list. *)
Lemma increasing_ext (l1 l2 : list Z) :
  StronglySorted Z.lt l1 → StronglySorted Z.lt l2 →
  (∀ i, i ∈ l1 ↔ i ∈ l2) → l1 = l2.
Proof.
  intros H1 H2 Hin. apply (Sorted_unique Z.le).
  - by apply lt_sorted_le.
  - by apply lt_sorted_le.
  - apply NoDup_Permutation; [by apply lt_sorted_NoDup..|done].
Qed.

Lemma testbit_lor_all ws i :
  Z.testbit (lor_all ws) i = existsb (λ w, Z.testbit w i) ws.
Proof.
  induction ws as [|w ws IH]; simpl.
  - apply Z.bits_0.
  - by rewrite Z.lor_spec, IH.
Qed.

(** X1: decoding a sequence of words is decoding their bitwise OR; so the
    result does not depend on the order of the words, and decoding a
    concatenation is decoding the two ORs. *)
Theorem decode_merges_words ws :
  _decode_bitfields (Iter ws) = _decode_bitfields (Int (lor_all ws))
  ∧ (∀ ws', ws ≡ₚ ws' →
       _decode_bitfields (Iter ws) = _decode_bitfields (Iter ws'))
  ∧ (∀ ws', _decode_bitfields (Iter (ws ++ ws'))
            = _decode_bitfields
                (Iter [lor_all ws; lor_all ws'])).
Proof.
  assert (∀ ws0 i, i ∈ _decode_bitfields (Iter ws0) ↔
            0 ≤ i ≤ 31 ∧ Z.testbit (lor_all ws0) i = true) as Hlor.
  { intros ws0 i. rewrite elem_of_decode, testbit_lor_all, existsb_exists.
    simpl. setoid_rewrite <-list_elem_of_In. done. }
  split_and!.
  - apply increasing_ext; [apply decode_strictly_sorted..|].
    intros i. by rewrite Hlor, elem_of_decode_Int.
  - intros ws' Hp. apply increasing_ext; [apply decode_strictly_sorted..|].
    intros i. rewrite !elem_of_decode. simpl.
    by setoid_rewrite Hp.
  - intros ws'. apply increasing_ext; [apply decode_strictly_sorted..|].
    intros i. rewrite !Hlor. unfold lor_all at 1. rewrite foldr_app.
    fold (lor_all ws'). simpl. rewrite Z.lor_0_r.
    assert (∀ a, foldr Z.lor a ws = Z.lor (lor_all ws) a) as ->; [|done].
    induction ws as [|w ws0 IH]; intros a; simpl.
    + done.
    + by rewrite IH, Z.lor_assoc.
Qed.

Lemma testbit_mod32 z i :
  0 ≤ i → Z.testbit (z `mod` 2 ^ 32) i
          = if decide (i < 32) then Z.testbit z i else false.
Proof.
  intros Hi. case_decide.
  - by apply Z.mod_pow2_bits_low.
  - apply Z.mod_pow2_bits_high. lia.
Qed.

(** X2: two integers decode to the same list exactly when they agree on
    their 32 low bits: the decoder reads the low word and nothing else. *)
Theorem decode_reads_low_word z z' :
  _decode_bitfields (Int z) = _decode_bitfields (Int z')
  ↔ z `mod` 2 ^ 32 = z' `mod` 2 ^ 32.
Proof.
  split.
  - intros Heq. apply Z.bits_inj'. intros i Hi.
    rewrite !testbit_mod32 by done. case_decide; [|done].
    assert (i ∈ _decode_bitfields (Int z) ↔ i ∈ _decode_bitfields (Int z'))
      as Hin by (by rewrite Heq).
    rewrite !elem_of_decode_Int in Hin.
    destruct (Z.testbit z i), (Z.testbit z' i); try done.
    + destruct Hin as [Hin _]. by destruct Hin; [split; [lia|]|].
    + destruct Hin as [_ Hin]. by destruct Hin; [split; [lia|]|].
  - intros Heq. apply increasing_ext; [apply decode_strictly_sorted..|].
    intros i. rewrite !elem_of_decode_Int.
    assert (0 ≤ i ≤ 31 → Z.testbit z i = Z.testbit z' i) as Hb.
    { intros Hi. apply (f_equal (λ x, Z.testbit x i)) in Heq.
      rewrite !testbit_mod32 in Heq by lia.
      by rewrite !decide_True in Heq by lia. }
    split; intros [Hi Ht]; (split; [done|]); by rewrite ?Hb, <-?Hb in *.
Qed.

(** X3: the mask [1 << tag] that [toggle_focused_tag] sends decodes to
    [[tag]] for a tag below 32, and to the empty list from 32 on. *)
Theorem decode_of_tag_mask tag :
  0 ≤ tag →
  _decode_bitfields (Int (Z.shiftl 1 tag))
  = if decide (tag < 32) then [tag] else [].
Proof.
  intros Htag. apply increasing_ext.
  - apply decode_strictly_sorted.
  - case_decide; repeat constructor.
  - intros i. rewrite elem_of_decode_Int, Z.shiftl_1_l.
    case_decide.
    + rewrite list_elem_of_singleton. split.
      * intros [Hi Hb]. destruct (decide (i = tag)) as [|Hne]; [done|].
        rewrite Z.pow2_bits_false in Hb by done. done.
      * intros ->. split; [lia|]. by apply Z.pow2_bits_true.
    + rewrite elem_of_nil. split; [|done]. intros [Hi Hb].
      rewrite Z.pow2_bits_false in Hb by lia. done.
Qed.
End codec_more.

(** ** The records of a session *)

Section records.
Implicit Types (w : World) (a : label) (ev : wire_event) (tr : list label)
  (h : gmap loc OutputInfo) (r : OutputInfo).

Lemma records_ok_alter h l (f : OutputInfo → OutputInfo) :
  (∀ r, record_ok r → record_ok (f r)) →
  heap_records_ok h → heap_records_ok (alter f l h).
Proof.
  intros Hf Hh l' r'. rewrite lookup_alter. case_decide; [|by apply Hh].
  subst. destruct (h !! l') as [r|] eqn:E; [|done].
  intros [= <-]. apply Hf. by apply (Hh l').
Qed.

Lemma records_ok_insert h l r :
  record_ok r → heap_records_ok h → heap_records_ok (<[l := r]> h).
Proof.
  intros Hr Hh l' r'. rewrite lookup_insert. case_decide; [|by apply Hh].
  by intros [= <-].
Qed.

Lemma records_ok_dispatch ev w :
  heap_records_ok (heap w) → heap_records_ok (heap (dispatch ev w)).
Proof.
  intros Hh. destruct ev; simpl; unfold_handlers;
    repeat case_match; simplify_eq/=; try done.
  - apply records_ok_insert; [|done]. split; [by eexists|by left].
  - apply records_ok_alter; [|done]. by intros r [Hv Hs].
  - apply records_ok_alter; [|done]. by intros r [Hv Hs].
  - apply records_ok_alter; [|done]. by intros r [Hv Hs].
Qed.

Lemma records_ok_bind (items : list (Z * loc)) w :
  heap_records_ok (heap w) →
  heap_records_ok (heap (foldl bind_output_status w items)).
Proof.
  revert w. induction items as [|[n l] items IH]; intros w Hw; [done|].
  apply IH. simpl. apply records_ok_alter; [|done].
  intros r [Hv _]. split; [done|by right].
Qed.

Lemma records_ok_step w a :
  heap_records_ok (heap w) → heap_records_ok (heap (step w a)).
Proof.
  intros Hw. by_label a; simpl.
  - by destruct (phase w).
  - destruct (phase w); auto using records_ok_dispatch.
  - destruct (phase w); try done.
    unfold wire_listeners. destruct (st_river_status_mgr _); [|done].
    simpl. apply records_ok_bind. by destruct (st_seat (state w)).
  - by destruct (phase w).
  - destruct (idle w) as [|d q]; [done|].
    by destruct (run_deferred_frame d (set_idle q w)) as (_ & -> & _).
  - by destruct (run_command_frame os command args callback w)
      as (_ & _ & -> & _).
  - by destruct (toggle_focused_tag_frame os tag callback w)
      as (_ & _ & -> & _).
Qed.

(** X4: in every run, each id tracked in [state["outputs"]] or in
    [self.outputs] names a live record whose [name] is that id; every
    record holds the bound [wl_output] global of its own name, and its
    status object is absent or the one requested for that bound object. *)
Theorem records_well_formed tr :
  let w := run __init__ tr in
  (∀ n l, st_outputs (state w) !! n = Some l
          ∨ outputs (self w) !! n = Some l →
     ∃ r, heap w !! l = Some r ∧ name r = n)
  ∧ (∀ l r, heap w !! l = Some r →
       (∃ version, output r = Bound (name r) "wl_output" version)
       ∧ (status r = None ∨ status r = Some (OutputStatus (output r)))).
Proof.
  intros w. split.
  - destruct (heap_ok_run tr __init__ heap_ok_init) as [Hs Ho].
    intros n l [H|H]; [by apply Hs|by apply Ho].
  - unfold w. clear w.
    assert (∀ w0, heap_records_ok (heap w0) →
                  heap_records_ok (heap (run w0 tr))) as Hrun.
    { induction tr as [|a tr IH]; intros w0 H0; [done|].
      apply IH, records_ok_step, H0. }
    apply Hrun. intros l r. simpl. by rewrite lookup_empty.
Qed.
End records.

(** ** What is copied to the service, and when *)

Section publication.
Implicit Types (w : World) (a : label) (ev : wire_event) (tr : list label).

Lemma published_step w a :
  (phase w = Collecting → a ≠ RoundtripDone) →
  outputs (self (step w a)) = outputs (self w)
  ∧ river_control (self (step w a)) = river_control (self w)
  ∧ seat (self (step w a)) = seat (self w)
  ∧ river_status_mgr (self (step w a)) = river_status_mgr (self w)
  ∧ _display (self (step w a)) = _display (self w).
Proof.
  intros Ha. by_label a; simpl.
  - by destruct (phase w).
  - destruct (dispatch_frame ev w)
      as (_ & _ & _ & _ & _ & _ & _ & ? & ? & ? & ? & ?).
    by destruct (phase w).
  - destruct (phase w) eqn:Hp; try done.
    + unfold wire_listeners. destruct (st_river_status_mgr _); [|done].
      simpl.
      match goal with
      | |- context [foldl bind_output_status ?w0 ?items] =>
          destruct (foldl_bind_output_status_frame items w0) as (-> & _)
      end.
      by destruct (st_seat (state w)).
    + by destruct Ha.
  - by destruct (phase w).
  - destruct (idle w) as [|d q]; [done|].
    by destruct (run_deferred_frame d (set_idle q w))
      as (_ & _ & _ & _ & _ & _ & _ & _ & _ & ? & ? & ? & ? & ?).
  - by destruct (run_command_frame os command args callback w) as (-> & _).
  - by destruct (toggle_focused_tag_frame os tag callback w) as (-> & _).
Qed.

Lemma late_step w a :
  early (phase w) = false → early (phase (step w a)) = false.
Proof.
  intros Hw. by_label a; simpl.
  - destruct (phase w) eqn:E; simpl in *; by rewrite ?E.
  - destruct (dispatch_frame ev w) as (Hp & _).
    destruct (phase w) eqn:E; simpl in *; by rewrite ?Hp, ?E.
  - destruct (phase w) eqn:E; simpl in *; by rewrite ?E.
  - destruct (phase w) eqn:E; simpl in *; by rewrite ?E.
  - destruct (idle w) as [|d q]; [done|].
    by destruct (run_deferred_frame d (set_idle q w)) as (_ & _ & -> & _).
  - by destruct (run_command_frame os command args callback w)
      as (_ & _ & _ & -> & _).
  - by destruct (toggle_focused_tag_frame os tag callback w)
      as (_ & _ & _ & -> & _).
Qed.

Lemma published_run w tr :
  early (phase w) = false →
  outputs (self (run w tr)) = outputs (self w)
  ∧ river_control (self (run w tr)) = river_control (self w)
  ∧ seat (self (run w tr)) = seat (self w).
Proof.
  revert w. induction tr as [|a tr IH]; intros w Hw; [done|].
  simpl. destruct (IH (step w a) (late_step w a Hw)) as (-> & -> & ->).
  destruct (published_step w a) as (? & ? & ? & _); [|done].
  intros Hp. by rewrite Hp in Hw.
Qed.

(** X5: [self.outputs] is written by one place only, the update after the
    second round trip.  From the main loop on it never changes: an output
    removed later leaves [state["outputs"]] and stays in [self.outputs]
    with its record, and an output advertised later is tracked in
    [state["outputs"]] only. *)
Theorem outputs_published_once :
  (∀ w a, (phase w = Collecting → a ≠ RoundtripDone) →
     outputs (self (step w a)) = outputs (self w))
  ∧ (∀ w tr, early (phase w) = false →
       outputs (self (run w tr)) = outputs (self w))
  ∧ (∀ w n l, phase w = Dispatching →
       st_outputs (state w) !! n = Some l →
       outputs (self w) !! n = Some l →
       let w' := step w (Deliver (GlobalRemove n)) in
       st_outputs (state w') !! n = None
       ∧ outputs (self w') !! n = Some l
       ∧ heap w' = heap w)
  ∧ (∀ w n version, phase w = Dispatching →
       outputs (self w) !! n = None →
       let w' := step w (Deliver (Global n "wl_output" version)) in
       is_Some (st_outputs (state w') !! n)
       ∧ outputs (self w') !! n = None).
Proof.
  split_and!.
  - intros w a Ha. by destruct (published_step w a Ha).
  - intros w tr Hw. by destruct (published_run w tr Hw).
  - intros w n l Hp Hs Ho w'. unfold w'. simpl. rewrite Hp.
    rewrite (handle_global_remove_tracked _ _ _ Hs). simpl.
    by rewrite lookup_delete_eq.
  - intros w n version Hp Ho w'. unfold w'. simpl. rewrite Hp.
    rewrite handle_global_output. simpl. rewrite lookup_insert_eq. eauto.
Qed.

Lemma wiring_step w a :
  (phase w = Discovering → a ≠ RoundtripDone) →
  status_handlers (step w a) = status_handlers w
  ∧ seat_handler (step w a) = seat_handler w.
Proof.
  intros Ha. by_label a; simpl.
  - by destruct (phase w).
  - destruct (dispatch_frame ev w) as (_ & ? & ? & _).
    by destruct (phase w).
  - destruct (phase w) eqn:Hp; try done. by destruct Ha.
  - by destruct (phase w).
  - destruct (idle w) as [|d q]; [done|].
    by destruct (run_deferred_frame d (set_idle q w))
      as (_ & _ & _ & ? & ? & _).
  - by destruct (run_command_frame os command args callback w)
      as (_ & _ & _ & _ & ? & ? & _).
  - by destruct (toggle_focused_tag_frame os tag callback w)
      as (_ & _ & _ & _ & ? & ? & _).
Qed.

Lemma wired_phase_step w a :
  phase w ≠ Starting → phase w ≠ Discovering →
  phase (step w a) ≠ Starting ∧ phase (step w a) ≠ Discovering.
Proof.
  intros H1 H2. by_label a; simpl.
  - destruct (phase w) eqn:E; simpl in *; by rewrite ?E.
  - destruct (dispatch_frame ev w) as (Hp & _).
    destruct (phase w) eqn:E; simpl in *; by rewrite ?Hp, ?E.
  - destruct (phase w) eqn:E; simpl in *; by rewrite ?E.
  - destruct (phase w) eqn:E; simpl in *; by rewrite ?E.
  - destruct (idle w) as [|d q]; [done|].
    by destruct (run_deferred_frame d (set_idle q w)) as (_ & _ & -> & _).
  - by destruct (run_command_frame os command args callback w)
      as (_ & _ & _ & -> & _).
  - by destruct (toggle_focused_tag_frame os tag callback w)
      as (_ & _ & _ & -> & _).
Qed.

Lemma wiring_run w tr :
  phase w ≠ Starting → phase w ≠ Discovering →
  status_handlers (run w tr) = status_handlers w
  ∧ seat_handler (run w tr) = seat_handler w.
Proof.
  revert w. induction tr as [|a tr IH]; intros w H1 H2; [done|].
  simpl. destruct (wired_phase_step w a H1 H2) as [H1' H2'].
  destruct (IH (step w a) H1' H2') as (-> & ->).
  by apply wiring_step.
Qed.

(** X6: status listeners are attached by one place only, the code after
    the first round trip.  Afterwards the set of outputs with handlers and
    the seat handler never change, so the tag events of an output that
    was not known then, and the focused-view events of a seat that was not
    known then, change nothing. *)
Theorem listeners_wired_once :
  (∀ w a, (phase w = Discovering → a ≠ RoundtripDone) →
     status_handlers (step w a) = status_handlers w
     ∧ seat_handler (step w a) = seat_handler w)
  ∧ (∀ w tr n t, phase w ≠ Starting → phase w ≠ Discovering →
       n ∉ status_handlers w →
       let w' := run w tr in
       (n ∉ status_handlers w')
       ∧ step w' (Deliver (ViewTags n t)) = w'
       ∧ step w' (Deliver (FocusedTags n t)) = w'
       ∧ step w' (Deliver (UrgentTags n t)) = w')
  ∧ (∀ w tr title, phase w ≠ Starting → phase w ≠ Discovering →
       seat_handler w = false →
       let w' := run w tr in
       step w' (Deliver (FocusedView title)) = w').
Proof.
  split_and!.
  - apply wiring_step.
  - intros w tr n t H1 H2 Hn w'.
    destruct (wiring_run w tr H1 H2) as [Hh _]. fold w' in Hh.
    assert (n ∉ status_handlers w') as Hn' by (by rewrite Hh).
    split; [done|]. simpl. rewrite !decide_False by done.
    by destruct (phase w').
  - intros w tr title H1 H2 Hs w'.
    destruct (wiring_run w tr H1 H2) as [_ Hh]. fold w' in Hh.
    simpl. rewrite Hh, Hs. by destruct (phase w').
Qed.

Lemma unpublished_step w a :
  early (phase (step w a)) = true →
  early (phase w) = true
  ∧ outputs (self (step w a)) = outputs (self w)
  ∧ river_control (self (step w a)) = river_control (self w)
  ∧ seat (self (step w a)) = seat (self w)
  ∧ _display (self (step w a)) = _display (self w).
Proof.
  intros He.
  assert (early (phase w) = true) as Hw.
  { destruct (early (phase w)) eqn:E; [done|].
    by rewrite (late_step w a E) in He. }
  split; [done|].
  destruct (published_step w a) as (? & ? & ? & _ & ?); [|done].
  intros Hp ->. simpl in He. rewrite Hp in He. done.
Qed.

(** X7: until the second round trip has returned the service object has
    no control handle, no seat, no outputs and no display, [ready] is
    false, and every [run_command] takes the fallback, whatever the
    registry has advertised. *)
Theorem commands_fall_back_until_published tr :
  let w := run __init__ tr in
  early (phase w) = true →
  river_control (self w) = None ∧ seat (self w) = None
  ∧ outputs (self w) = ∅ ∧ _display (self w) = false
  ∧ _ready (self w) = false
  ∧ ∀ os command args callback,
      run_command os command args callback w
      = _run_command_fallback os command args w.
Proof.
  intros w He.
  assert (river_control (self w) = None ∧ seat (self w) = None
          ∧ outputs (self w) = ∅ ∧ _display (self w) = false)
    as (Hc & Hs & Ho & Hd).
  { unfold w in *. clear w. revert He.
    induction tr as [|a tr IH] using rev_ind; [done|].
    rewrite run_snoc. intros He.
    destruct (unpublished_step _ _ He) as (He' & -> & -> & -> & ->).
    by apply IH. }
  split_and!; try done.
  - destruct (ready_ok_run tr __init__ ready_ok_init) as (Hr & _ & _ & Hp).
    fold w in Hr, Hp. destruct (_ready (self w)); [|done].
    destruct Hr as [Hr _]. specialize (Hr eq_refl).
    destruct (phase w); try done; lia.
  - intros. apply run_command_fallback. by left.
Qed.
End publication.

(** ** Streams of status events *)

Section streams.
Implicit Types (w : World) (o : Z) (t : bitfields) (ts : list bitfields)
  (l : loc) (r : OutputInfo) (title : string).

Lemma view_tags_step w o t l r :
  listening (phase w) = true → o ∈ status_handlers w →
  st_outputs (state w) !! o = Some l → heap w !! l = Some r →
  let w' := step w (Deliver (ViewTags o t)) in
  w' = idle_add (DEmitViewTags o (_decode_bitfields t))
         (upd_heap (alter (set_tags_view (_decode_bitfields t)) l) w).
Proof.
  intros Hp Ho Hl Hr. simpl. rewrite decide_True by done.
  unfold make_view_tags_handler. rewrite Hl. simpl.
  by destruct (phase w).
Qed.

Lemma view_tags_run ts w o l r :
  listening (phase w) = true → o ∈ status_handlers w →
  st_outputs (state w) !! o = Some l → heap w !! l = Some r →
  let w' := run w ((λ t, Deliver (ViewTags o t)) <$> ts) in
  heap w' !! l
  = Some (match last ts with
          | Some t => set_tags_view (_decode_bitfields t) r
          | None => r
          end)
  ∧ (∀ l', l' ≠ l → heap w' !! l' = heap w !! l')
  ∧ idle w'
    = idle w ++ ((λ t, DEmitViewTags o (_decode_bitfields t)) <$> ts)
  ∧ state w' = state w ∧ self w' = self w ∧ phase w' = phase w
  ∧ status_handlers w' = status_handlers w ∧ seen w' = seen w.
Proof.
  revert w r. induction ts as [|t ts IH]; intros w r Hp Ho Hl Hr.
  - simpl. by rewrite app_nil_r.
  - rewrite fmap_cons.
    change (run w (Deliver (ViewTags o t) :: ?tr))
      with (run (step w (Deliver (ViewTags o t))) tr).
    rewrite (view_tags_step w o t l r Hp Ho Hl Hr).
    set (w1 := idle_add _ _).
    assert (heap w1 !! l = Some (set_tags_view (_decode_bitfields t) r))
      as Hr1 by (simpl; by rewrite lookup_alter_eq, Hr).
    destruct (IH w1 _ Hp Ho Hl Hr1) as (H1 & H2 & H3 & H4 & H5 & H6 & H7 & H8).
    split_and!; try done.
    + rewrite H1. rewrite last_cons. by destruct (last ts).
    + intros l' Hne. rewrite H2 by done. simpl. by rewrite lookup_alter_ne.
    + rewrite H3. simpl. by rewrite <-app_assoc.
Qed.

Lemma drain_view_tags ts w o :
  idle w = (λ t, DEmitViewTags o (_decode_bitfields t)) <$> ts →
  seen (drain w)
  = seen w ++ (ts ≫= λ t,
      [Emit "view_tags"
         (tags_event "view_tags" (_decode_bitfields t) o);
       EmitFor "view_tags" o (_decode_bitfields t)]).
Proof.
  intros Hq. unfold drain. rewrite Hq, length_fmap. clear -Hq.
  revert w Hq. induction ts as [|t ts IH]; intros w Hq.
  - simpl. by rewrite app_nil_r.
  - change (run w (replicate (length (t :: ts)) Idle))
      with (run (step w Idle) (replicate (length ts) Idle)).
    assert (step w Idle
            = _emit_view_tags o (_decode_bitfields t)
                (set_idle ((λ t, DEmitViewTags o (_decode_bitfields t))
                             <$> ts) w)) as ->
      by (simpl; by rewrite Hq).
    rewrite IH by done. simpl. by rewrite <-app_assoc.
Qed.

(** X8: view-tags events are neither reordered nor merged: after a
    sequence of them for a wired output the record holds the decoding of
    the last payload, with the other two tag fields untouched, one
    emission per event is queued in the order of delivery, and the main
    loop then emits them in that order, each as the generic signal
    followed by the per-output one. *)
Theorem view_tags_last_wins w o l r ts t :
  listening (phase w) = true → o ∈ status_handlers w →
  st_outputs (state w) !! o = Some l → heap w !! l = Some r →
  let w' := run w ((λ t, Deliver (ViewTags o t)) <$> (ts ++ [t])) in
  (∃ r', heap w' !! l = Some r'
         ∧ tags_view r' = _decode_bitfields t
         ∧ tags_focused r' = tags_focused r
         ∧ tags_urgent r' = tags_urgent r)
  ∧ idle w'
    = idle w
      ++ ((λ t, DEmitViewTags o (_decode_bitfields t)) <$> (ts ++ [t]))
  ∧ (idle w = [] →
       seen (drain w')
       = seen w ++ ((ts ++ [t]) ≫= λ t,
           [Emit "view_tags"
              (tags_event "view_tags" (_decode_bitfields t) o);
            EmitFor "view_tags" o (_decode_bitfields t)])).
Proof.
  intros Hp Ho Hl Hr w'.
  destruct (view_tags_run (ts ++ [t]) w o l r Hp Ho Hl Hr)
    as (H1 & _ & H3 & _ & _ & _ & _ & H8).
  fold w' in H1, H3, H8. rewrite last_snoc in H1.
  split_and!.
  - eexists. split; [exact H1|]. done.
  - done.
  - intros Hq. rewrite Hq in H3. simpl in H3.
    rewrite (drain_view_tags _ _ _ H3). by rewrite H8.
Qed.

Lemma focused_view_run (titles : list string) w :
  listening (phase w) = true → seat_handler w = true →
  let w' := run w ((λ s, Deliver (FocusedView s)) <$> titles) in
  _active_window_title (self w')
  = default (_active_window_title (self w)) (last titles)
  ∧ idle w' = idle w ++ (DEmitActiveWindow <$> titles)
  ∧ heap w' = heap w ∧ state w' = state w.
Proof.
  revert w. induction titles as [|s titles IH]; intros w Hp Hs.
  - simpl. by rewrite app_nil_r.
  - rewrite fmap_cons.
    change (run w (Deliver (FocusedView s) :: ?tr))
      with (run (step w (Deliver (FocusedView s))) tr).
    assert (step w (Deliver (FocusedView s)) = focused_view_handler s w)
      as -> by (simpl; rewrite Hs; by destruct (phase w)).
    destruct (IH (focused_view_handler s w) Hp Hs) as (H1 & H2 & H3 & H4).
    split_and!; try done.
    + rewrite H1, last_cons. by destruct (last titles).
    + rewrite H2. simpl. by rewrite <-app_assoc.
Qed.

Lemma title_needs_seat_step w a :
  (seat_handler w = false → _active_window_title (self w) = "") →
  seat_handler (step w a) = false →
  _active_window_title (self (step w a)) = "".
Proof.
  intros Hw. by_label a; simpl.
  - by destruct (phase w).
  - destruct (dispatch_frame ev w) as (_ & Hs & _).
    destruct (phase w); try done; intros Hf; rewrite Hs in Hf;
      by rewrite self_dispatch; auto.
  - destruct (phase w); try done.
    unfold wire_listeners. destruct (st_river_status_mgr _); [|done].
    simpl.
    match goal with
    | |- context [foldl bind_output_status ?w0 ?items] =>
        destruct (foldl_bind_output_status_frame items w0)
          as (-> & _ & _ & -> & _)
    end.
    by destruct (st_seat (state w)).
  - by destruct (phase w).
  - destruct (idle w) as [|d q]; [done|]. by destruct d.
  - by destruct (run_command_frame os command args callback w)
      as (-> & _ & _ & _ & -> & _).
  - by destruct (toggle_focused_tag_frame os tag callback w)
      as (-> & _ & _ & _ & -> & _).
Qed.

(** X9: with the seat listener attached, the window title is the one of
    the last focused-view event and one [active_window] emission is queued
    per event, in order; in every run a service without a seat listener
    has the empty title; the queued closure emits the event with the title
    as its payload and then notifies [active-window]. *)
Theorem active_window_follows_seat :
  (∀ w titles title,
     listening (phase w) = true → seat_handler w = true →
     let w' :=
       run w ((λ s, Deliver (FocusedView s)) <$> (titles ++ [title])) in
     _active_window_title (self w') = title
     ∧ idle w' = idle w ++ (DEmitActiveWindow <$> (titles ++ [title]))
     ∧ heap w' = heap w ∧ state w' = state w)
  ∧ (∀ tr, let w := run __init__ tr in
       seat_handler w = false → _active_window_title (self w) = "")
  ∧ (∀ w title q, idle w = DEmitActiveWindow title :: q →
       seen (step w Idle)
       = seen w ++ [Emit "active_window"
                      {| ev_name := "active_window";
                         ev_data := [PyStr title];
                         ev_output_id := None |};
                    Notify "active-window"]).
Proof.
  split_and!.
  - intros w titles title Hp Hs w'.
    destruct (focused_view_run (titles ++ [title]) w Hp Hs)
      as (H1 & H2 & H3 & H4).
    fold w' in H1, H2, H3, H4. rewrite last_snoc in H1. done.
  - intros tr. induction tr as [|a tr IH] using rev_ind; [done|].
    rewrite run_snoc. by apply title_needs_seat_step.
  - intros w title q Hq. simpl. by rewrite Hq.
Qed.
End streams.

(** ** More of the command session *)

Section commands_more.
Implicit Types (w : World) (a : label) (k : nat) (inv : Invocation)
  (callback : option callable) (os : subprocess) (command : string)
  (args : list pyarg) (tr : list label).



Lemma exited_frozen_step w a :
  phase w = Exited →
  heap (step w a) = heap w ∧ state (step w a) = state w
  ∧ _active_window_title (self (step w a)) = _active_window_title (self w)
  ∧ ∃ news, commands (step w a) = commands w ++ news
            ∧ Forall (λ inv, inv = pending (inv_callback inv)) news.
Proof.
  intros Hp. by_label a; simpl; rewrite ?Hp.
  - split_and!; try done. exists []. by rewrite app_nil_r.
  - split_and!; try done. exists []. by rewrite app_nil_r.
  - split_and!; try done. exists []. by rewrite app_nil_r.
  - split_and!; try done. exists []. by rewrite app_nil_r.
  - destruct (idle w) as [|d q].
    { split_and!; try done. exists []. by rewrite app_nil_r. }
    destruct (run_deferred_frame d (set_idle q w))
      as (-> & -> & _ & _ & _ & -> & _).
    split_and!; try done; [by destruct d|].
    exists []. by rewrite app_nil_r.
  - destruct (run_command_frame os command args callback w)
      as (-> & -> & -> & _).
    split_and!; try done. unfold run_command.
    destruct (river_control (self w)), (seat (self w));
      rewrite ?fallback_frame; simpl;
      try (exists []; by rewrite app_nil_r).
    exists [pending callback].
    split; [by destruct (_display (self w))|]. by repeat constructor.
  - destruct (toggle_focused_tag_frame os tag callback w)
      as (-> & -> & -> & _).
    split_and!; try done. unfold toggle_focused_tag.
    destruct (decide (tag < 0)); [exists []; by rewrite app_nil_r|].
    unfold run_command.
    destruct (river_control (self w)), (seat (self w)); simpl;
      try (exists [pending callback];
           split; [by destruct (_display (self w))|by repeat constructor]).
    all: pose proof (fallback_frame os "set-focused-tags"
           [AStr (pretty (Z.shiftl 1 tag))] w) as Hfb;
      destruct (_run_command_fallback _ _ _ _) as [[] w'];
      simpl in *; rewrite Hfb; exists []; by rewrite app_nil_r.
Qed.

(** X12: once the worker has left the task nothing is delivered any more:
    the records, the task's state and the window title stay as they are,
    every result keeps its value, and a command issued afterwards stays
    pending for ever. *)
Theorem nothing_arrives_after_exit w tr :
  phase w = Exited →
  let w' := run w tr in
  phase w' = Exited
  ∧ heap w' = heap w ∧ state w' = state w
  ∧ _active_window_title (self w') = _active_window_title (self w)
  ∧ ∃ news, commands w' = commands w ++ news
            ∧ Forall (λ inv, res_success inv = None) news.
Proof.
  revert w. induction tr as [|a tr IH]; intros w Hp w'.
  - split_and!; try done. exists []. by rewrite app_nil_r.
  - destruct (exited_frozen_step w a Hp) as (Hh & Hs & Ht & n1 & Hc & Hn1).
    destruct (IH (step w a) (exited_step w a Hp))
      as (Hp' & Hh' & Hs' & Ht' & n2 & Hc' & Hn2).
    unfold w'. simpl.
    split_and!; try congruence.
    exists (n1 ++ n2). split.
    + change (foldl step (step w a) tr) with (run (step w a) tr).
      by rewrite Hc', Hc, <-app_assoc.
    + apply Forall_app. split; [|done].
      eapply Forall_impl; [done|]. by intros inv ->.
Qed.

(** X13: an exception of the display before the first round trip has
    returned ends the task with the service object as constructed and no
    listener attached; commands take the fallback. *)
Theorem failure_before_wiring tr tr' :
  forallb stays tr = true →
  let w := run __init__ (tr ++ Fault :: tr') in
  phase w = Exited ∧ self w = self __init__ ∧ unwired w
  ∧ ∀ os command args callback,
      run_command os command args callback w
      = _run_command_fallback os command args w.
Proof.
  intros Htr w.
  assert (untouched (run __init__ tr)) as Hu.
  { apply untouched_run; [done|]. by split_and!. }
  set (w0 := run __init__ tr) in *.
  assert (untouched (step w0 Fault) ∧ phase (step w0 Fault) = Exited)
    as [Hu1 Hp1].
  { simpl. destruct (phase w0) eqn:E; rewrite ?E; by split. }
  destruct (untouched_exited_run (step w0 Fault) tr' Hp1 Hu1)
    as (Hp & Hun & Hself & _).
  assert (w = run (step w0 Fault) tr') as ->.
  { unfold w. by rewrite run_app. }
  split_and!; try done.
  intros. apply run_command_fallback. left. by rewrite Hself.
Qed.
End commands_more.

(** ** The registry *)

Section registry_more.
Implicit Types (w : World) (n version : Z) (iface : string).

(** X14: a global of an interface the session does not use is ignored; a
    status manager, control interface or seat advertised again replaces the
    handle kept before; an output advertised again under the same name
    gets a new record, which replaces the old one in [state["outputs"]]
    while the old record stays in memory. *)
Theorem registry_keeps_latest :
  (∀ w n iface version,
     iface ≠ "zriver_status_manager_v1" → iface ≠ "zriver_control_v1" →
     iface ≠ "wl_output" → iface ≠ "wl_seat" →
     handle_global n iface version w = w)
  ∧ (∀ w n1 v1 n2 v2 iface,
       iface = "zriver_status_manager_v1" ∨ iface = "zriver_control_v1"
       ∨ iface = "wl_seat" →
       handle_global n2 iface v2 (handle_global n1 iface v1 w)
       = handle_global n2 iface v2 w)
  ∧ (∀ w n v1 v2,
       let w1 := handle_global n "wl_output" v1 w in
       let w2 := handle_global n "wl_output" v2 w1 in
       ∃ l1 l2, l1 ≠ l2
         ∧ st_outputs (state w1) !! n = Some l1
         ∧ st_outputs (state w2) !! n = Some l2
         ∧ heap w2 !! l1 = Some (new_OutputInfo n (Bound n "wl_output" v1))
         ∧ heap w2 !! l2 = Some (new_OutputInfo n (Bound n "wl_output" v2))
         ∧ dom (st_outputs (state w2)) = dom (st_outputs (state w1))).
Proof.
  split_and!.
  - intros w n iface version H1 H2 H3 H4. unfold handle_global.
    by rewrite !decide_False.
  - intros w n1 v1 n2 v2 iface [-> | [-> | ->]]; reflexivity.
  - intros w n v1 v2. cbv zeta.
    set (w1 := handle_global n "wl_output" v1 w).
    assert (heap w1 !! new_loc w
            = Some (new_OutputInfo n (Bound n "wl_output" v1))) as H1.
    { unfold w1. rewrite handle_global_output. apply lookup_insert_eq. }
    assert (st_outputs (state w1) !! n = Some (new_loc w)) as Hs1.
    { unfold w1. rewrite handle_global_output. apply lookup_insert_eq. }
    assert (new_loc w ≠ new_loc w1) as Hne.
    { intros Heq. pose proof (new_loc_fresh w1) as Hf.
      rewrite <-Heq in Hf. congruence. }
    clearbody w1. exists (new_loc w), (new_loc w1).
    rewrite (handle_global_output w1).
    change (new_loc w ≠ new_loc w1
      ∧ st_outputs (state w1) !! n = Some (new_loc w)
      ∧ <[n := new_loc w1]> (st_outputs (state w1)) !! n
        = Some (new_loc w1)
      ∧ <[new_loc w1 := new_OutputInfo n (Bound n "wl_output" v2)]>
          (heap w1) !! new_loc w
        = Some (new_OutputInfo n (Bound n "wl_output" v1))
      ∧ <[new_loc w1 := new_OutputInfo n (Bound n "wl_output" v2)]>
          (heap w1) !! new_loc w1
        = Some (new_OutputInfo n (Bound n "wl_output" v2))
      ∧ dom (<[n := new_loc w1]> (st_outputs (state w1)))
        = dom (st_outputs (state w1))).
    split_and!; try done.
    + apply lookup_insert_eq.
    + by rewrite lookup_insert_ne.
    + apply lookup_insert_eq.
    + rewrite dom_insert_L.
      assert (n ∈ dom (st_outputs (state w1))) as Hin
        by (apply elem_of_dom; eauto).
      apply set_eq. intros x. rewrite elem_of_union, elem_of_singleton.
      split; [intros [->|?]; done|auto].
Qed.
End registry_more.

(** ** Trimming *)

Section strip_more.
Implicit Types (s : string).




End strip_more.

(** ** The further properties at sample runs *)

Lemma decode_of_tag_mask_sample :
  _decode_bitfields (Int (Z.shiftl 1 5)) = if decide (5 < 32) then [5] else [].
Proof. apply (decode_of_tag_mask 5). lia. Defined.

Lemma commands_fall_back_until_published_sample :
  river_control
    (self (run __init__ [Connect; Deliver (Global 2 "zriver_control_v1" 1)]))
  = None.
Proof.
  refine (proj1 (commands_fall_back_until_published
                   [Connect; Deliver (Global 2 "zriver_control_v1" 1)] _)).
  vm_compute. reflexivity.
Defined.

Lemma view_tags_last_wins_sample :
  idle (run (run __init__ sample_session)
          ((λ t, Deliver (ViewTags 7 t)) <$> ([Int 5; Int 3] ++ [Int 9])))
  = idle (run __init__ sample_session)
    ++ ((λ t, DEmitViewTags 7 (_decode_bitfields t))
          <$> ([Int 5; Int 3] ++ [Int 9])).
Proof.
  refine (proj1 (proj2 (view_tags_last_wins (run __init__ sample_session) 7
    1%positive
    {| name := 7; output := Bound 7 "wl_output" 3;
       status := Some (OutputStatus (Bound 7 "wl_output" 3));
       tags_view := [0; 2]; tags_focused := [0]; tags_urgent := [] |}
    [Int 5; Int 3] (Int 9) _ _ _ _))).
  - vm_compute. reflexivity.
  - vm_compute. reflexivity.
  - vm_compute. reflexivity.
  - vm_compute. reflexivity.
Defined.


Lemma nothing_arrives_after_exit_sample :
  phase (run (run __init__ (sample_command ++ [Fault]))
           [Deliver (Success 0 "ok"); RoundtripDone])
  = Exited.
Proof.
  refine (proj1 (nothing_arrives_after_exit
    (run __init__ (sample_command ++ [Fault]))
    [Deliver (Success 0 "ok"); RoundtripDone] _)).
  vm_compute. reflexivity.
Defined.

Lemma failure_before_wiring_sample :
  phase (run __init__ ([Connect] ++ Fault :: [Idle])) = Exited.
Proof.
  refine (proj1 (failure_before_wiring [Connect] [Idle] _)). reflexivity.
Defined.

